(** * Code Level Metrics of the Go agent: source locations, options, report

    A shallow embedding of [v3/newrelic/code_level_metrics.go] and the
    properties its specification states about it.

    Conventions of the embedding:
    - a Go [string] is a Rocq [string] (a sequence of bytes);
    - a Go [int] is a [Z];
    - a Go slice that may be [nil] is an [option (list A)], [None] being [nil];
    - a Go pointer to a [CodeLocation] is an [option CodeLocation] ([None]
      being [nil]); the file never writes through such a pointer;
    - a [*CachedCodeLocation] is an address in a heap of cache instances;
    - the goroutine's call stack is a [list Frame], innermost frame first;
    - the callback [setAttr] is the list of the calls made to it, in order. *)

From Stdlib Require Import ZArith String Ascii List Lia Bool.
From stdpp Require Import base option list gmap strings.
Import ListNotations.
Open Scope string_scope.
Open Scope list_scope.
Open Scope Z_scope.

(** ** The functions of Go's [strings] package the file calls *)

Module strings.

(** [strings.HasPrefix(s, prefix)] *)
Fixpoint HasPrefix (s prefix : string) {struct prefix} : bool :=
  match prefix with
  | EmptyString => true
  | String p prefix' =>
      match s with
      | EmptyString => false
      | String a s' => Ascii.eqb a p && HasPrefix s' prefix'
      end
  end.

(** The position of the first instance of [substr] in [s], when there is one. *)
Fixpoint firstIndex (s substr : string) : option nat :=
  if HasPrefix s substr then Some 0%nat
  else match s with
       | EmptyString => None
       | String _ s' => option_map S (firstIndex s' substr)
       end.

(** The position of the last instance of [substr] in [s], when there is one. *)
Fixpoint lastIndex (s substr : string) : option nat :=
  match s with
  | EmptyString => if HasPrefix s substr then Some 0%nat else None
  | String _ s' =>
      match lastIndex s' substr with
      | Some i => Some (S i)
      | None => if HasPrefix s substr then Some 0%nat else None
      end
  end.

Definition toInt (i : option nat) : Z :=
  match i with
  | Some n => Z.of_nat n
  | None => -1
  end.

(** [strings.Index(s, substr)]: -1 when [substr] is not present in [s]. *)
Definition Index (s substr : string) : Z := toInt (firstIndex s substr).

(** [strings.LastIndex(s, substr)]: -1 when [substr] is not present in [s]. *)
Definition LastIndex (s substr : string) : Z := toInt (lastIndex s substr).

Fixpoint bytesFrom (n : nat) (s : string) : string :=
  match n, s with
  | O, _ => s
  | S _, EmptyString => EmptyString
  | S n', String _ s' => bytesFrom n' s'
  end.

Fixpoint bytesTo (n : nat) (s : string) : string :=
  match n, s with
  | O, _ => EmptyString
  | S _, EmptyString => EmptyString
  | S n', String a s' => String a (bytesTo n' s')
  end.

(** The slice expressions [s[i:]] and [s[:i]]. Go panics when [i] is outside
    [0..len(s)]; [inRange] is that condition, and every slice expression of
    the file is shown to satisfy it ([trim_slice_inRange],
    [split_slices_inRange]). *)
Definition sliceFrom (s : string) (i : Z) : string := bytesFrom (Z.to_nat i) s.
Definition sliceTo (s : string) (i : Z) : string := bytesTo (Z.to_nat i) s.
Definition inRange (s : string) (i : Z) : Prop :=
  0 <= i <= Z.of_nat (String.length s).

(** [OccursAt a sub s]: [sub] is found in [s] at byte offset [length a]. *)
Definition OccursAt (a sub s : string) : Prop :=
  exists b, s = a +:+ sub +:+ b.

(** [sub] is found somewhere within [s]. *)
Definition Contains (s sub : string) : Prop :=
  exists a, OccursAt a sub s.

End strings.

(** ** Go values the model needs *)

(** Go's [int] on the 64-bit platforms: addition wraps around. *)
Definition wrapInt (z : Z) : Z := (z + 2 ^ 63) mod 2 ^ 64 - 2 ^ 63.
Definition addInt (a b : Z) : Z := wrapInt (a + b).
Definition maxInt : Z := 2 ^ 63 - 1.

(** A slice that may be [nil]. *)
Definition slice (A : Type) : Type := option (list A).

(** [range s]: ranging over a [nil] slice visits nothing. *)
Definition elems {A : Type} (s : slice A) : list A :=
  match s with
  | Some l => l
  | None => []
  end.

(** [append(s, x)]: the result is never [nil]. *)
Definition append {A : Type} (s : slice A) (x : A) : slice A :=
  Some (elems s ++ [x]).

(** A dynamically typed argument ([interface{}]): the [nil] interface, or a
    value of some type. A [func] value carries its code pointer, which is 0
    for a [nil] func. *)
Inductive Value : Type :=
  | VNil
  | VBool (b : bool)
  | VInt (n : Z)
  | VString (s : string)
  | VFunc (codePtr : Z).

Module reflect.

Inductive Kind : Type := Invalid | Bool | Int | String | Func.

Definition KindOf (v : Value) : Kind :=
  match v with
  | VNil => Invalid
  | VBool _ => Bool
  | VInt _ => Int
  | VString _ => String
  | VFunc _ => Func
  end.

Definition IsValid (v : Value) : bool :=
  match v with
  | VNil => false
  | _ => true
  end.

Definition isFunc (k : Kind) : bool :=
  match k with
  | Func => true
  | _ => false
  end.

(** [v.Pointer()] of a value of kind [Func] *)
Definition Pointer (v : Value) : Z :=
  match v with
  | VFunc p => p
  | _ => 0
  end.

End reflect.

(** A Go [error] is its message (the file builds errors with [errors.New]);
    a [nil] error is [None]. *)
Definition error : Type := string.

Module runtime.

(** [runtime.Frame], the fields the file reads *)
Record Frame : Type := mkFrame {
  Function : string;
  File : string;
  Line : Z
}.

Definition zeroFrame : Frame := mkFrame "" "" 0.

(** [runtime.Func]: what [Name()] and [FileLine(Entry())] give. *)
Record Func : Type := mkFunc {
  Name : string;
  EntryFile : string;
  EntryLine : Z
}.

(** [runtime.Callers(skip, pcs)] with [len(pcs) = n], on the stack [stack]
    whose head is the frame of [Callers] itself: skip [skip] frames (a
    negative [skip] skips nothing) and record at most [n]. A program counter
    stands for the one frame it expands to. *)
Definition Callers (stack : list Frame) (skip : Z) (n : nat) : list Frame :=
  take n (drop (Z.to_nat skip) stack).

(** [frames.Next()]: the next frame, whether more follow, and the rest. *)
Definition Next (frames : list Frame) : Frame * bool * list Frame :=
  match frames with
  | [] => (zeroFrame, false, [])
  | f :: rest => (f, match rest with [] => false | _ => true end, rest)
  end.

End runtime.

(** What the model takes from the Go runtime and standard library the binary
    was built with: the function table behind [runtime.FuncForPC], the frames
    of [runtime.Callers], of [Do] and of [doSlow] of [sync.Once] as they
    appear on a call stack, and the path under which the compiler recorded
    this source file. *)
Class GoRuntime : Type := {
  FuncForPC : Z -> option runtime.Func;
  frCallers : runtime.Frame;
  frOnceDo : runtime.Frame;
  frOnceDoSlow : runtime.Frame;
  srcFile : string
}.

(** ** The data model of the file *)

Definition defaultAgentProjectRoot : string := "github.com/newrelic/go-agent/".

Record CodeLocation : Type := mkCodeLocation {
  LineNo : Z;
  Function : string;
  FilePath : string
}.

Definition zeroCodeLocation : CodeLocation := mkCodeLocation 0 "" "".

Module sync.
(** [sync.Once], for one caller at a time: whether [Do] has completed. The
    mutex that serialises concurrent callers is part of [Concurrent] below. *)
Record Once : Type := mkOnce { done : bool }.
End sync.

Record CachedCodeLocation : Type := mkCached {
  Location : option CodeLocation;
  Err : option error;
  once : sync.Once
}.

(** [CachedCodeLocation{}] *)
Definition zeroCached : CachedCodeLocation := mkCached None None (sync.mkOnce false).

Record traceOptSet : Type := mkTraceOptSet {
  LocationOverride : option CodeLocation;
  SuppressCLM : bool;
  DemandCLM : bool;
  IgnoredPrefixes : slice string;
  PathPrefixes : slice string
}.

(** [traceOptSet{}] *)
Definition zeroTraceOptSet : traceOptSet := mkTraceOptSet None false false None None.

(** The cache instances of the program, by address. An address that was never
    written holds the zero value. *)
Abbreviation Heap := (gmap nat CachedCodeLocation).

Definition load (h : Heap) (c : nat) : CachedCodeLocation := default zeroCached (h !! c).

(** [type TraceOption], a function on a pointer to the settings: an option updates the settings it
    is given; the cached options also update the cache instance they hold. *)
Definition TraceOption : Type := Heap -> traceOptSet -> Heap * traceOptSet.

(** An option that touches the settings only. *)
Definition pureOption (f : traceOptSet -> traceOptSet) : TraceOption :=
  fun h o => (h, f o).

(** [run.Config.CodeLevelMetrics], the fields the file reads *)
Module Config.
Record CodeLevelMetrics : Type := mkCodeLevelMetrics {
  IgnoredPrefixes : slice string;
  IgnoredPrefix : string;
  PathPrefixes : slice string;
  PathPrefix : string
}.
End Config.

(** Modelled from the spec: the names of the four attributes. The constants
    [AttributeCodeLineno], [AttributeCodeNamespace], [AttributeCodeFilepath]
    and [AttributeCodeFunction] are declared in another file of the package;
    the specification fixes them as code-line-number, code-namespace,
    code-file-path and code-function. *)
Inductive AttributeName : Type :=
  | AttributeCodeLineno
  | AttributeCodeNamespace
  | AttributeCodeFilepath
  | AttributeCodeFunction.

(** One call [setAttr(name, stringValue, otherValue)]; [otherValue] is the
    line number or [nil]. *)
Definition AttrCall : Type := (AttributeName * string * option Z)%type.

(** ** Frames of the file's own functions *)

Definition pkgPath : string := "github.com/newrelic/go-agent/v3/newrelic".

(** The frame of the function [fn] of this file, stopped at line [line]. *)
Definition ownFrame `{GoRuntime} (fn : string) (line : Z) : runtime.Frame :=
  runtime.mkFrame (pkgPath +:+ "." +:+ fn) srcFile line.

(** [o.Do(f)] called with the stack [callers]: [Do] calls [doSlow], which calls
    [f]; this is the stack [f] is called with. *)
Definition onceCallsWith `{GoRuntime} (callers : list runtime.Frame) : list runtime.Frame :=
  frOnceDoSlow :: frOnceDo :: callers.

(** ** Resolving a location *)

Definition setLocationOverride (o : traceOptSet) (loc : option CodeLocation) : traceOptSet :=
  mkTraceOptSet loc (SuppressCLM o) (DemandCLM o) (IgnoredPrefixes o) (PathPrefixes o).

Definition setSuppressCLM (o : traceOptSet) (b : bool) : traceOptSet :=
  mkTraceOptSet (LocationOverride o) b (DemandCLM o) (IgnoredPrefixes o) (PathPrefixes o).

Definition setDemandCLM (o : traceOptSet) (b : bool) : traceOptSet :=
  mkTraceOptSet (LocationOverride o) (SuppressCLM o) b (IgnoredPrefixes o) (PathPrefixes o).

Definition setIgnoredPrefixes (o : traceOptSet) (p : slice string) : traceOptSet :=
  mkTraceOptSet (LocationOverride o) (SuppressCLM o) (DemandCLM o) p (PathPrefixes o).

Definition setPathPrefixes (o : traceOptSet) (p : slice string) : traceOptSet :=
  mkTraceOptSet (LocationOverride o) (SuppressCLM o) (DemandCLM o) (IgnoredPrefixes o) p.

Definition isNilInterface (v : Value) : bool :=
  match v with
  | VNil => true
  | _ => false
  end.

(** [FunctionLocation(function)]: the location and the error it returns. *)
Definition FunctionLocation `{GoRuntime} (function : Value) : option CodeLocation * option error :=
  if isNilInterface function then
    (None, Some "nil function passed to FunctionLocation")
  else
    let v := function in
    if negb (reflect.IsValid v) || negb (reflect.isFunc (reflect.KindOf v)) then
      (None, Some "value passed to FunctionLocation is not a function")
    else
      match FuncForPC (reflect.Pointer v) with
      | Some fInfo =>
          (Some {| FilePath := runtime.EntryFile fInfo;
                   LineNo := runtime.EntryLine fInfo;
                   Function := runtime.Name fInfo |}, None)
      | None => (None, Some "could not find code location for function")
      end.

(** [ThisCodeLocation(skipLevels...)] called with the stack [callers] (the
    caller's frame first). The pointer it returns is never [nil]. *)
Definition ThisCodeLocation `{GoRuntime} (callers : list runtime.Frame) (skipLevels : list Z)
  : CodeLocation :=
  let skip := match skipLevels with
              | [] => 2
              | s :: _ => addInt 2 s
              end in
  let pcs := runtime.Callers (frCallers :: ownFrame "ThisCodeLocation" 335 :: callers) skip 10 in
  let depth := Z.of_nat (length pcs) in
  if 0 <? depth then
    let '(frame, _, _) := runtime.Next (take 1 pcs) in
    {| LineNo := runtime.Line frame;
       Function := runtime.Function frame;
       FilePath := runtime.File frame |}
  else zeroCodeLocation.

Module Cached.

(** [c.once.Do(f)] for one caller at a time: [f] runs unless [Do] completed
    before on this instance. *)
Definition onceDo (c : nat) (f : CachedCodeLocation -> CachedCodeLocation) (h : Heap) : Heap :=
  let cc := load h c in
  if sync.done (once cc) then h
  else
    let cc' := f cc in
    <[c := mkCached (Location cc') (Err cc') (sync.mkOnce true)]> h.

(** What the function literal of [c.FunctionLocation] assigns to [c.Location]
    and [c.Err]. *)
Definition functionLocationFunc1 `{GoRuntime} (function : Value)
  : option CodeLocation * option error :=
  FunctionLocation function.

(** What the function literal of [c.ThisCodeLocation] assigns to [c.Location]
    and [c.Err], the method being called with the stack [callers]. *)
Definition thisCodeLocationFunc1 `{GoRuntime} (callers : list runtime.Frame) (skip : Z)
  : option CodeLocation * option error :=
  let self := ownFrame "(*CachedCodeLocation).ThisCodeLocation" 366 in
  let func1 := ownFrame "(*CachedCodeLocation).ThisCodeLocation.func1" 368 in
  (Some (ThisCodeLocation (func1 :: onceCallsWith (self :: callers)) [addInt skip 4]), None).

(** [skip], as [c.ThisCodeLocation] takes it from its variadic argument *)
Definition skipOf (skiplevels : list Z) : Z :=
  match skiplevels with
  | [] => 0
  | s :: _ => s
  end.

(** [c.FunctionLocation(function)] *)
Definition FunctionLocation `{GoRuntime} (c : nat) (function : Value) (h : Heap)
  : Heap * (option CodeLocation * option error) :=
  let h' := onceDo c (fun cc =>
                        let '(loc, err) := functionLocationFunc1 function in
                        mkCached loc err (once cc)) h in
  (h', (Location (load h' c), Err (load h' c))).

(** [c.ThisCodeLocation(skiplevels...)] called with the stack [callers] *)
Definition ThisCodeLocation `{GoRuntime} (callers : list runtime.Frame) (c : nat)
    (skiplevels : list Z) (h : Heap) : Heap * option CodeLocation :=
  let skip := skipOf skiplevels in
  let h' := onceDo c (fun cc =>
                        let '(loc, err) := thisCodeLocationFunc1 callers skip in
                        mkCached loc err (once cc)) h in
  (h', Location (load h' c)).

(** One invocation of a resolution method, with its arguments. *)
Inductive Call : Type :=
  | CallFunctionLocation (function : Value)
  | CallThisCodeLocation (callers : list runtime.Frame) (skiplevels : list Z).

(** What a method returns: [c.FunctionLocation] the location and the error,
    [c.ThisCodeLocation] the location. *)
Inductive Ret : Type :=
  | RetFunctionLocation (loc : option CodeLocation) (err : option error)
  | RetThisCodeLocation (loc : option CodeLocation).

(** The underlying resolution of an invocation: the right-hand sides of the
    assignments in its function literal. *)
Definition resolution `{GoRuntime} (call : Call) : option CodeLocation * option error :=
  match call with
  | CallFunctionLocation function => functionLocationFunc1 function
  | CallThisCodeLocation callers skiplevels =>
      thisCodeLocationFunc1 callers (skipOf skiplevels)
  end.

(** The invocation [call] on the instance at [c]. *)
Definition invoke `{GoRuntime} (call : Call) (c : nat) (h : Heap) : Heap * Ret :=
  match call with
  | CallFunctionLocation function =>
      let '(h', (loc, err)) := FunctionLocation c function h in
      (h', RetFunctionLocation loc err)
  | CallThisCodeLocation callers skiplevels =>
      let '(h', loc) := ThisCodeLocation callers c skiplevels h in
      (h', RetThisCodeLocation loc)
  end.

(** The invocations [calls], one after the other, on the instance at [c]. *)
Fixpoint invokeAll `{GoRuntime} (calls : list Call) (c : nat) (h : Heap) : Heap * list Ret :=
  match calls with
  | [] => (h, [])
  | call :: rest =>
      let '(h', ret) := invoke call c h in
      let '(h'', rets) := invokeAll rest c h' in
      (h'', ret :: rets)
  end.

(** What the invocation [call] returns when the instance stores the pair [r]. *)
Definition returnOf (r : option CodeLocation * option error) (call : Call) : Ret :=
  match call with
  | CallFunctionLocation _ => RetFunctionLocation (fst r) (snd r)
  | CallThisCodeLocation _ _ => RetThisCodeLocation (fst r)
  end.

End Cached.

(** ** The options *)

Definition WithCodeLocation (loc : option CodeLocation) : TraceOption :=
  pureOption (fun o => setLocationOverride o loc).

Definition WithIgnoredPrefix (prefix : slice string) : TraceOption :=
  pureOption (fun o => setIgnoredPrefixes o prefix).

Definition WithPathPrefix (prefix : slice string) : TraceOption :=
  pureOption (fun o => setPathPrefixes o prefix).

Definition WithoutCodeLevelMetrics : TraceOption :=
  pureOption (fun o => setSuppressCLM o true).

Definition WithCodeLevelMetrics : TraceOption :=
  pureOption (fun o => setDemandCLM o true).

(** [WithThisCodeLocation()] called with the stack [callers]: the location is
    resolved when the option is built. *)
Definition WithThisCodeLocation `{GoRuntime} (callers : list runtime.Frame) : TraceOption :=
  WithCodeLocation (Some (ThisCodeLocation (ownFrame "WithThisCodeLocation" 149 :: callers) [1])).

Definition WithFunctionLocation `{GoRuntime} (function : Value) : TraceOption :=
  fun h o =>
    let '(loc, err) := FunctionLocation function in
    match err with
    | None => (h, setLocationOverride o loc)
    | Some _ => (h, o)
    end.

Definition WithDefaultFunctionLocation `{GoRuntime} (function : Value) : TraceOption :=
  fun h o =>
    match LocationOverride o with
    | None => WithFunctionLocation function h o
    | Some _ => (h, o)
    end.

Module CachedOptions.

(** [c.WithThisCodeLocation()] called with the stack [callers]: building the
    option resolves the location through the cache. *)
Definition WithThisCodeLocation `{GoRuntime} (callers : list runtime.Frame) (c : nat) (h : Heap)
  : Heap * TraceOption :=
  let self := ownFrame "(*CachedCodeLocation).WithThisCodeLocation" 159 in
  let '(h', loc) := Cached.ThisCodeLocation (self :: callers) c [1] h in
  (h', WithCodeLocation loc).

(** [c.WithFunctionLocation(function)] *)
Definition WithFunctionLocation `{GoRuntime} (c : nat) (function : Value) : TraceOption :=
  fun h o =>
    let '(h', (loc, err)) := Cached.FunctionLocation c function h in
    match err with
    | None => (h', setLocationOverride o loc)
    | Some _ => (h', o)
    end.

(** [c.WithDefaultFunctionLocation(function)] *)
Definition WithDefaultFunctionLocation `{GoRuntime} (c : nat) (function : Value) : TraceOption :=
  fun h o =>
    match LocationOverride o with
    | None =>
        let '(h', (loc, err)) := Cached.FunctionLocation c function h in
        match err with
        | None => WithCodeLocation loc h' o
        | Some _ => (h', o)
        end
    | Some _ => (h, o)
    end.

End CachedOptions.

(** [withPreparedOptions(newOptions)]; [None] is the [nil] pointer. *)
Definition withPreparedOptions (newOptions : option traceOptSet) : TraceOption :=
  pureOption (fun o =>
    match newOptions with
    | None => o
    | Some n =>
        let o := match LocationOverride n with
                 | Some _ => setLocationOverride o (LocationOverride n)
                 | None => o
                 end in
        let o := setSuppressCLM o (SuppressCLM n) in
        let o := setDemandCLM o (DemandCLM n) in
        let o := match IgnoredPrefixes n with
                 | Some _ => setIgnoredPrefixes o (IgnoredPrefixes n)
                 | None => o
                 end in
        match PathPrefixes n with
        | Some _ => setPathPrefixes o (PathPrefixes n)
        | None => o
        end
    end).

(** The loop of [resolveCLMTraceOptions]: apply each option to [optSet], and
    [break] as soon as [optSet.SuppressCLM] holds. *)
Fixpoint applyOptions (options : list TraceOption) (h : Heap) (optSet : traceOptSet)
  : Heap * traceOptSet :=
  match options with
  | [] => (h, optSet)
  | o :: rest =>
      let '(h', optSet') := o h optSet in
      if SuppressCLM optSet' then (h', optSet')
      else applyOptions rest h' optSet'
  end.

Definition resolveCLMTraceOptions (options : list TraceOption) (h : Heap) : Heap * traceOptSet :=
  applyOptions options h zeroTraceOptSet.

(** ** The report *)

(** The closure of the stack walk: no prefix of the list starts [function]. *)
Fixpoint noIgnoredPrefix (function : string) (ignoredPrefixes : list string) : bool :=
  match ignoredPrefixes with
  | [] => true
  | eachPrefix :: rest =>
      if strings.HasPrefix function eachPrefix then false
      else noIgnoredPrefix function rest
  end.

(** The loop [for moreToRead { frame, moreToRead = frames.Next(); ... }] over
    the frames not yet read; [frame] and [moreToRead] are the loop's variables. *)
Fixpoint skipIgnoredFrames (ignoredPrefixes : list string) (frames : list runtime.Frame)
    (frame : runtime.Frame) (moreToRead : bool) : runtime.Frame :=
  if moreToRead then
    match frames with
    | [] => runtime.zeroFrame
    | f :: rest =>
        if noIgnoredPrefix (runtime.Function f) ignoredPrefixes then f
        else skipIgnoredFrames ignoredPrefixes rest f
               (match rest with [] => false | _ => true end)
    end
  else frame.

(** The ignore-list the stack walk uses. *)
Definition effectiveIgnoredPrefixes (tOpts : traceOptSet) (run : Config.CodeLevelMetrics)
  : slice string :=
  match IgnoredPrefixes tOpts with
  | Some _ => IgnoredPrefixes tOpts
  | None =>
      let p := Config.IgnoredPrefixes run in
      let p := if negb (String.eqb (Config.IgnoredPrefix run) "")
               then append p (Config.IgnoredPrefix run) else p in
      match p with
      | None => append p defaultAgentProjectRoot
      | Some _ => p
      end
  end.

(** The stack walk of [reportCodeLevelMetrics], called with the stack
    [callers]: the location when there is no override. *)
Definition walkStack `{GoRuntime} (callers : list runtime.Frame) (tOpts : traceOptSet)
    (run : Config.CodeLevelMetrics) : CodeLocation :=
  let pcs := runtime.Callers
               (frCallers :: ownFrame "reportCodeLevelMetrics" 405 :: callers) 2 10 in
  let depth := Z.of_nat (length pcs) in
  if 0 <? depth then
    let frames := take (Z.to_nat depth) pcs in
    let ignored := effectiveIgnoredPrefixes tOpts run in
    let frame := skipIgnoredFrames (elems ignored) frames runtime.zeroFrame true in
    {| FilePath := runtime.File frame;
       Function := runtime.Function frame;
       LineNo := runtime.Line frame |}
  else zeroCodeLocation.

(** The location [reportCodeLevelMetrics] starts from: the override when
    there is one, the stack walk otherwise. *)
Definition resolveLocation `{GoRuntime} (callers : list runtime.Frame) (tOpts : traceOptSet)
    (run : Config.CodeLevelMetrics) : CodeLocation :=
  match LocationOverride tOpts with
  | Some loc => loc
  | None => walkStack callers tOpts run
  end.

(** The path-prefix list the trimming uses. *)
Definition effectivePathPrefixes (tOpts : traceOptSet) (run : Config.CodeLevelMetrics)
  : slice string :=
  match PathPrefixes tOpts with
  | Some _ => PathPrefixes tOpts
  | None =>
      let p := Config.PathPrefixes run in
      if negb (String.eqb (Config.PathPrefix run) "")
      then append p (Config.PathPrefix run) else p
  end.

(** The loop over the path prefixes: cut at the first one found, and [break]. *)
Fixpoint trimPath (filePath : string) (pathPrefixes : list string) : string :=
  match pathPrefixes with
  | [] => filePath
  | prefix :: rest =>
      let pi := strings.Index filePath prefix in
      if 0 <=? pi then strings.sliceFrom filePath pi
      else trimPath filePath rest
  end.

(** The split of the function name: [(namespace, function)]. *)
Definition splitFunction (fn : string) : string * string :=
  let ns := strings.LastIndex fn "." in
  if 0 <=? ns then (strings.sliceTo fn ns, strings.sliceFrom fn (addInt ns 1))
  else ("", fn).

(** [reportCodeLevelMetrics(tOpts, run, setAttr)] called with the stack
    [callers]: the calls it makes to [setAttr], in order. *)
Definition reportCodeLevelMetrics `{GoRuntime} (callers : list runtime.Frame)
    (tOpts : traceOptSet) (run : Config.CodeLevelMetrics) : list AttrCall :=
  let location := resolveLocation callers tOpts run in
  let pathPrefixes := effectivePathPrefixes tOpts run in
  let filePath := trimPath (FilePath location) (elems pathPrefixes) in
  let '(namespace, function) := splitFunction (Function location) in
  [ (AttributeCodeLineno, "", Some (LineNo location));
    (AttributeCodeNamespace, namespace, None);
    (AttributeCodeFilepath, filePath, None);
    (AttributeCodeFunction, function, None) ].

(** ** Concurrent callers of one cache instance

    Goroutines that call the two resolution methods of one
    [CachedCodeLocation], interleaved step by step. [sync.Once] is expanded as
    the Go standard library writes it: [Do] loads [done] and returns when it is
    set; otherwise [doSlow] locks the mutex, loads [done] again, and when it
    is still clear calls [f], stores [done] and unlocks. Every access to the
    shared instance is a step of its own, so a state in which [c.Location] is
    written and [c.Err] is not yet is a state of the model. *)

Module Concurrent.

Import Cached.

(** Where an invocation stands. *)
Inductive PC : Type :=
  | AtDo                        (* Do: if o.done.Load() == 0 *)
  | AtLock                      (* doSlow: o.m.Lock() *)
  | AtRecheck                   (* doSlow: if o.done.Load() == 0 *)
  | AtResolve                   (* f: evaluate the resolution *)
  | AtStoreLocation (r : option CodeLocation * option error)  (* f: c.Location = ... *)
  | AtStoreErr (r : option CodeLocation * option error)       (* f: c.Err = ... *)
  | AtStoreDone                 (* doSlow, deferred: o.done.Store(1) *)
  | AtUnlock                    (* doSlow, deferred: o.m.Unlock() *)
  | AtLoadLocation              (* return c.Location ... *)
  | AtLoadErr (loc : option CodeLocation)                     (* ... , c.Err *)
  | Returned (ret : Ret).

Record Thread : Type := mkThread {
  call : Call;
  pc : PC
}.

(** The shared instance, the goroutine that holds the mutex of its [once],
    the invocations, and a log for the statements: what each evaluation of a
    resolution returned, the latest first. *)
Record State : Type := mkState {
  cache : CachedCodeLocation;
  mutex : option nat;
  threads : list Thread;
  resolved : list (option CodeLocation * option error)
}.

(** How many times a resolution was evaluated. *)
Definition runs (s : State) : nat := length (resolved s).

Definition init (calls : list Call) : State :=
  mkState zeroCached None (map (fun c => mkThread c AtDo) calls) [].

Definition isDone (s : State) : bool := sync.done (once (cache s)).

Definition goto (s : State) (i : nat) (t : Thread) (p : PC) : State :=
  mkState (cache s) (mutex s) (<[i := mkThread (call t) p]> (threads s)) (resolved s).

Definition withCache (s : State) (cc : CachedCodeLocation) : State :=
  mkState cc (mutex s) (threads s) (resolved s).

Definition withMutex (s : State) (m : option nat) : State :=
  mkState (cache s) m (threads s) (resolved s).

Definition counted (s : State) (r : option CodeLocation * option error) : State :=
  mkState (cache s) (mutex s) (threads s) (r :: resolved s).

(** One step of invocation [i]; [None] when it cannot move (it waits for the
    mutex, it has returned, or there is no such invocation). *)
Definition step `{GoRuntime} (i : nat) (s : State) : option State :=
  match threads s !! i with
  | None => None
  | Some t =>
      let cc := cache s in
      match pc t with
      | AtDo => Some (goto s i t (if isDone s then AtLoadLocation else AtLock))
      | AtLock =>
          match mutex s with
          | Some _ => None
          | None => Some (goto (withMutex s (Some i)) i t AtRecheck)
          end
      | AtRecheck => Some (goto s i t (if isDone s then AtUnlock else AtResolve))
      | AtResolve =>
          let r := resolution (call t) in
          Some (goto (counted s r) i t (AtStoreLocation r))
      | AtStoreLocation r =>
          Some (goto (withCache s (mkCached (fst r) (Err cc) (once cc))) i t (AtStoreErr r))
      | AtStoreErr r =>
          Some (goto (withCache s (mkCached (Location cc) (snd r) (once cc))) i t AtStoreDone)
      | AtStoreDone =>
          Some (goto (withCache s (mkCached (Location cc) (Err cc) (sync.mkOnce true))) i t AtUnlock)
      | AtUnlock => Some (goto (withMutex s None) i t AtLoadLocation)
      | AtLoadLocation =>
          match call t with
          | CallFunctionLocation _ => Some (goto s i t (AtLoadErr (Location cc)))
          | CallThisCodeLocation _ _ =>
              Some (goto s i t (Returned (RetThisCodeLocation (Location cc))))
          end
      | AtLoadErr loc => Some (goto s i t (Returned (RetFunctionLocation loc (Err cc))))
      | Returned _ => None
      end
  end.

(** The run of a schedule, the list of the invocations that move, in order; a
    schedule that asks for a move that is not possible has no run. *)
Fixpoint run `{GoRuntime} (schedule : list nat) (s : State) : option State :=
  match schedule with
  | [] => Some s
  | i :: rest =>
      match step i s with
      | Some s' => run rest s'
      | None => None
      end
  end.

Definition hasReturned (t : Thread) : Prop :=
  match pc t with
  | Returned _ => True
  | _ => False
  end.

(** The steps an invocation has left, at most. *)
Definition stepsLeft (p : PC) : nat :=
  match p with
  | AtDo => 10
  | AtLock => 9
  | AtRecheck => 8
  | AtResolve => 7
  | AtStoreLocation _ => 6
  | AtStoreErr _ => 5
  | AtStoreDone => 4
  | AtUnlock => 3
  | AtLoadLocation => 2
  | AtLoadErr _ => 1
  | Returned _ => 0
  end%nat.

Definition workLeft (s : State) : nat :=
  list_sum (map (fun t => stepsLeft (pc t)) (threads s)).

(** An invocation is reading the instance's fields. *)
Definition reading (p : PC) : Prop :=
  match p with
  | AtLoadLocation | AtLoadErr _ => True
  | _ => False
  end.

(** An invocation is inside the function literal, between the evaluation of
    the resolution and the store to [done]. *)
Definition resolving (p : PC) : Prop :=
  match p with
  | AtStoreLocation _ | AtStoreErr _ | AtStoreDone => True
  | _ => False
  end.

(** An invocation is inside [doSlow] with the mutex held. *)
Definition holding (p : PC) : Prop :=
  match p with
  | AtRecheck | AtResolve | AtStoreLocation _ | AtStoreErr _ | AtStoreDone | AtUnlock => True
  | _ => False
  end.

(** The instance stores the pair [r], whole. *)
Definition stores (cc : CachedCodeLocation) (r : option CodeLocation * option error) : Prop :=
  Location cc = fst r /\ Err cc = snd r.

(** What holds of invocation [i] at each point of its code. *)
Definition threadOK `{GoRuntime} (s : State) (i : nat) (t : Thread) : Prop :=
  match pc t with
  | AtDo | AtLock => True
  | AtRecheck => mutex s = Some i /\ (isDone s = false -> resolved s = [])
  | AtResolve => mutex s = Some i /\ isDone s = false /\ resolved s = []
  | AtStoreLocation r =>
      mutex s = Some i /\ isDone s = false /\ resolved s = [r] /\ r = resolution (call t)
  | AtStoreErr r =>
      mutex s = Some i /\ isDone s = false /\ resolved s = [r]
      /\ Location (cache s) = fst r
  | AtStoreDone =>
      mutex s = Some i /\ isDone s = false /\ exists r, resolved s = [r] /\ stores (cache s) r
  | AtUnlock => mutex s = Some i /\ isDone s = true
  | AtLoadLocation => isDone s = true
  | AtLoadErr loc =>
      isDone s = true /\ loc = Location (cache s)
      /\ match call t with CallFunctionLocation _ => True | _ => False end
  | Returned ret =>
      isDone s = true /\ ret = returnOf (Location (cache s), Err (cache s)) (call t)
  end.

(** The invariant of the interleavings. *)
Record Inv `{GoRuntime} (s : State) : Prop := mkInv {
  inv_threads : forall i t, threads s !! i = Some t -> threadOK s i t;
  inv_owner : forall i, mutex s = Some i ->
                exists t, threads s !! i = Some t /\ holding (pc t);
  inv_done : isDone s = true -> exists r, resolved s = [r] /\ stores (cache s) r;
  inv_idle : isDone s = false -> mutex s = None -> resolved s = [];
  inv_resolved : forall r, In r (resolved s) ->
                   exists w t, threads s !! w = Some t /\ r = resolution (call t)
}.

End Concurrent.

(** ** The vocabulary of the specification *)

Module Spec.

(** [s] starts with [prefix]. *)
Definition StartsWith (s prefix : string) : Prop :=
  exists rest, s = prefix +:+ rest.

(** The error classes of the specification. The code has no such type: it
    tells its three errors apart by their message only. *)
Inductive ErrorClass : Type := InvalidArgument | NotFound.

(** The class the specification gives each error of [FunctionLocation]: a
    [nil] or non-callable argument is an invalid argument, a function without
    location metadata is not found. *)
Definition errorClass (e : error) : option ErrorClass :=
  if String.eqb e "nil function passed to FunctionLocation" then Some InvalidArgument
  else if String.eqb e "value passed to FunctionLocation is not a function" then Some InvalidArgument
  else if String.eqb e "could not find code location for function" then Some NotFound
  else None.

(** The fold the specification describes, without the early exit: every
    option applied, left to right. *)
Definition foldOptions (options : list TraceOption) (h : Heap) (optSet : traceOptSet)
  : Heap * traceOptSet :=
  fold_left (fun st o => o (fst st) (snd st)) options (h, optSet).

Definition sameName (a b : AttributeName) : bool :=
  match a, b with
  | AttributeCodeLineno, AttributeCodeLineno
  | AttributeCodeNamespace, AttributeCodeNamespace
  | AttributeCodeFilepath, AttributeCodeFilepath
  | AttributeCodeFunction, AttributeCodeFunction => true
  | _, _ => false
  end.

(** The string value [setAttr] was given for the attribute [name]. *)
Fixpoint emitted (name : AttributeName) (calls : list AttrCall) : option string :=
  match calls with
  | [] => None
  | (n, v, _) :: rest => if sameName n name then Some v else emitted name rest
  end.

(** A frame is ignored: its function name starts with a prefix of the list. *)
Definition Ignored (ignoredPrefixes : list string) (f : runtime.Frame) : Prop :=
  exists p, In p ignoredPrefixes /\ StartsWith (runtime.Function f) p.

(** The location of a frame. *)
Definition locationOf (f : runtime.Frame) : CodeLocation :=
  {| LineNo := runtime.Line f;
     Function := runtime.Function f;
     FilePath := runtime.File f |}.

(** A Go string is at most [maxInt] bytes long. *)
Definition goString (s : string) : Prop := Z.of_nat (String.length s) <= maxInt.

End Spec.

(** ** Concrete inputs *)

Module Example.

(** A runtime: one known function, and the frames of the Go standard library. *)
Definition goRuntime : GoRuntime :=
  {| FuncForPC := fun pc =>
       if pc =? 4198400 then Some (runtime.mkFunc "main.handler" "/app/main.go" 12)
       else None;
     frCallers := runtime.mkFrame "runtime.Callers" "/usr/local/go/src/runtime/extern.go" 331;
     frOnceDo := runtime.mkFrame "sync.(*Once).Do" "/usr/local/go/src/sync/once.go" 65;
     frOnceDoSlow := runtime.mkFrame "sync.(*Once).doSlow" "/usr/local/go/src/sync/once.go" 74;
     srcFile := "/go/src/github.com/newrelic/go-agent/v3/newrelic/code_level_metrics.go" |}.

Definition handler : Value := VFunc 4198400.

Definition noConfig : Config.CodeLevelMetrics :=
  Config.mkCodeLevelMetrics None "" None "".

Definition frameA : runtime.Frame := runtime.mkFrame "app.A" "/app/a.go" 10.
Definition frameB : runtime.Frame := runtime.mkFrame "agent-prefix/x.B" "/agent/b.go" 20.
Definition frameC : runtime.Frame := runtime.mkFrame "agent-prefix/x.C" "/agent/c.go" 30.

Definition ignoreAgent : traceOptSet :=
  mkTraceOptSet None false false (Some ["agent-prefix"]) None.

Definition inPkg : CodeLocation :=
  mkCodeLocation 42 "mypkg/sub.Handler" "/home/user/project/src/pkg/file.go".

Definition trimPkg : traceOptSet :=
  mkTraceOptSet (Some inPkg) false false None (Some ["pkg/"]).

Definition trimNothing : traceOptSet :=
  mkTraceOptSet (Some inPkg) false false None (Some ["vendor/"]).

Definition noSeparator : traceOptSet :=
  mkTraceOptSet (Some (mkCodeLocation 7 "main" "/app/main.go")) false false None None.

Definition suppressed : traceOptSet :=
  mkTraceOptSet (Some inPkg) true false None None.

Definition suppressThenMore : list TraceOption :=
  [ WithCodeLocation (Some inPkg);
    WithoutCodeLevelMetrics;
    WithPathPrefix (Some ["pkg/"]);
    WithCodeLevelMetrics ].

Definition neverSuppressed : list TraceOption :=
  [ WithCodeLevelMetrics; WithPathPrefix (Some ["pkg/"]) ].

(** Three concurrent invocations on one instance, and an interleaving in which
    the second takes the mutex while the other two wait for it. *)
Definition calls : list Cached.Call :=
  [ Cached.CallFunctionLocation handler;
    Cached.CallThisCodeLocation [frameA] [];
    Cached.CallFunctionLocation (VInt 42) ].

Definition schedule : list nat :=
  [0; 1; 1; 2; 1; 1; 1; 1; 1; 1; 0; 0; 0; 2; 2; 2; 0; 0; 1; 2; 2]%nat.

End Example.

(** ** The rest of the file, and further inputs *)

(** [removeCodeLevelMetrics(remAttr)]: the names it calls [remAttr] with, in
    order. *)
Definition removeCodeLevelMetrics : list AttributeName :=
  [ AttributeCodeLineno;
    AttributeCodeNamespace;
    AttributeCodeFilepath;
    AttributeCodeFunction ].

(** The attribute a call to [setAttr] names. *)
Definition attrName (call : AttrCall) : AttributeName := fst (fst call).

(** An option leaves the two flags of the settings as they are. *)
Definition leavesFlags (o : TraceOption) : Prop :=
  forall h optSet,
    SuppressCLM (snd (o h optSet)) = SuppressCLM optSet
    /\ DemandCLM (snd (o h optSet)) = DemandCLM optSet.

Module MoreExamples.

(** A stack of eleven frames: ten of the agent, then one of the application. *)
Definition agentFrame (n : Z) : runtime.Frame :=
  runtime.mkFrame "agent-prefix/x.F" "/agent/f.go" n.

Definition tenAgentFrames : list runtime.Frame :=
  map agentFrame [1; 2; 3; 4; 5; 6; 7; 8; 9; 10].

Definition deepStack : list runtime.Frame :=
  tenAgentFrames ++ [Example.frameA].

(** Settings that ignore every frame, and settings that ignore none. *)
Definition ignoreAll : traceOptSet :=
  mkTraceOptSet None false false (Some ["agent-prefix"; ""]) None.

Definition ignoreNone : traceOptSet :=
  mkTraceOptSet None false false (Some []) None.

(** A configuration with one ignored prefix of its own. *)
Definition ownPrefixConfig : Config.CodeLevelMetrics :=
  Config.mkCodeLevelMetrics (Some ["mycompany/"]) "legacy/" None "".

(** A cache instance whose first use was [c.FunctionLocation(42)]. *)
Definition failedOnce : Heap :=
  fst (@Cached.FunctionLocation Example.goRuntime 0%nat (VInt 42) ∅).

(** Options that only give locations and prefixes. *)
Definition locationsAndPrefixes : list TraceOption :=
  [ @WithFunctionLocation Example.goRuntime (VInt 42);
    WithIgnoredPrefix (Some ["a/"]);
    @CachedOptions.WithDefaultFunctionLocation Example.goRuntime 0%nat Example.handler;
    WithPathPrefix None ].

End MoreExamples.

(** * Properties *)

(** ** Strings *)

Section StringFacts.

Import strings.

Lemma append_cons (x : ascii) (a b : string) : String x a +:+ b = String x (a +:+ b).
Proof. reflexivity. Qed.

Lemma append_empty_l (b : string) : "" +:+ b = b.
Proof. reflexivity. Qed.

Lemma append_assoc (a b c : string) : (a +:+ b) +:+ c = a +:+ (b +:+ c).
Proof.
  induction a as [|x a IH]; [reflexivity|].
  now rewrite !append_cons, IH.
Qed.

Lemma append_empty_r (a : string) : a +:+ "" = a.
Proof.
  induction a as [|x a IH]; [reflexivity|].
  now rewrite append_cons, IH.
Qed.

Lemma length_append (a b : string) :
  String.length (a +:+ b) = (String.length a + String.length b)%nat.
Proof.
  induction a as [|x a IH]; [reflexivity|].
  rewrite append_cons. simpl. now rewrite IH.
Qed.

Lemma HasPrefix_append (p rest : string) : HasPrefix (p +:+ rest) p = true.
Proof.
  induction p as [|x p IH]; [reflexivity|].
  rewrite append_cons. simpl. now rewrite Ascii.eqb_refl, IH.
Qed.

Lemma HasPrefix_StartsWith (s p : string) :
  HasPrefix s p = true <-> Spec.StartsWith s p.
Proof.
  split.
  - revert s. induction p as [|x p IH]; intros s Hp.
    + now exists s.
    + destruct s as [|a s]; simpl in Hp; [discriminate|].
      apply andb_true_iff in Hp as [Hax Hp].
      apply Ascii.eqb_eq in Hax. subst a.
      destruct (IH _ Hp) as [rest ->]. now exists rest.
  - intros [rest ->]. apply HasPrefix_append.
Qed.

Lemma bytesTo_bytesFrom (n : nat) (s : string) : bytesTo n s +:+ bytesFrom n s = s.
Proof.
  revert s. induction n as [|n IH]; intros [|a s]; simpl; try reflexivity.
  now rewrite append_cons, IH.
Qed.

Lemma bytesFrom_append (a b : string) : bytesFrom (String.length a) (a +:+ b) = b.
Proof.
  induction a as [|x a IH]; [now destruct b|].
  rewrite append_cons. exact IH.
Qed.

Lemma bytesTo_append (a b : string) : bytesTo (String.length a) (a +:+ b) = a.
Proof.
  induction a as [|x a IH]; [now destruct b|].
  rewrite append_cons. simpl. now rewrite IH.
Qed.

Lemma length_bytesTo (n : nat) (s : string) :
  (n <= String.length s)%nat -> String.length (bytesTo n s) = n.
Proof.
  revert s. induction n as [|n IH]; intros [|a s] Hn; simpl in *; try lia.
  rewrite IH; lia.
Qed.

Lemma bytesFrom_S (n : nat) (a : ascii) (s : string) : bytesFrom (S n) (String a s) = bytesFrom n s.
Proof. reflexivity. Qed.

(** An occurrence of [sub] in [s] is a position whose suffix starts with [sub]. *)
Lemma OccursAt_position (a sub s : string) :
  OccursAt a sub s ->
  (String.length a <= String.length s)%nat
  /\ HasPrefix (bytesFrom (String.length a) s) sub = true.
Proof.
  intros [b ->]. rewrite length_append, bytesFrom_append. split; [lia|].
  apply HasPrefix_append.
Qed.

Lemma position_OccursAt (n : nat) (sub s : string) :
  (n <= String.length s)%nat ->
  HasPrefix (bytesFrom n s) sub = true ->
  OccursAt (bytesTo n s) sub s /\ String.length (bytesTo n s) = n.
Proof.
  intros Hn Hp. split; [|now apply length_bytesTo].
  apply HasPrefix_StartsWith in Hp as [b Hb].
  exists b. rewrite <- Hb. symmetry. apply bytesTo_bytesFrom.
Qed.

Lemma firstIndex_Some (s sub : string) (n : nat) :
  firstIndex s sub = Some n ->
  (n <= String.length s)%nat
  /\ HasPrefix (bytesFrom n s) sub = true
  /\ forall m, (m < n)%nat -> HasPrefix (bytesFrom m s) sub = false.
Proof.
  revert n. induction s as [|a s IH]; intros n; simpl firstIndex.
  - destruct (HasPrefix "" sub) eqn:E; [|discriminate].
    intros [= <-]. repeat split; [lia | exact E | lia].
  - destruct (HasPrefix (String a s) sub) eqn:E.
    + intros [= <-]. repeat split; [lia | exact E | lia].
    + destruct (firstIndex s sub) as [k|] eqn:Ek; [|discriminate].
      intros [= <-]. destruct (IH k eq_refl) as (Hk & Hp & Hmin).
      repeat split; [simpl; lia | exact Hp |].
      intros [|m] Hm; [exact E|]. rewrite bytesFrom_S. apply Hmin. lia.
Qed.

Lemma firstIndex_None (s sub : string) :
  firstIndex s sub = None ->
  forall m, (m <= String.length s)%nat -> HasPrefix (bytesFrom m s) sub = false.
Proof.
  induction s as [|a s IH]; simpl firstIndex.
  - destruct (HasPrefix "" sub) eqn:E; [discriminate|].
    intros _ [|m] Hm; [exact E | simpl in Hm; lia].
  - destruct (HasPrefix (String a s) sub) eqn:E; [discriminate|].
    destruct (firstIndex s sub) eqn:Ek; [discriminate|].
    intros _ [|m] Hm; [exact E|]. rewrite bytesFrom_S. apply IH; [reflexivity|].
    simpl in Hm. lia.
Qed.

Lemma lastIndex_Some (s sub : string) (n : nat) :
  lastIndex s sub = Some n ->
  (n <= String.length s)%nat
  /\ HasPrefix (bytesFrom n s) sub = true
  /\ forall m, (n < m)%nat -> (m <= String.length s)%nat -> HasPrefix (bytesFrom m s) sub = false.
Proof.
  revert n. induction s as [|a s IH]; intros n; simpl lastIndex.
  - destruct (HasPrefix "" sub) eqn:E; [|discriminate].
    intros [= <-]. repeat split; [lia | exact E |]. simpl. lia.
  - destruct (lastIndex s sub) as [k|] eqn:Ek.
    + intros [= <-]. destruct (IH k eq_refl) as (Hk & Hp & Hmax).
      repeat split; [simpl; lia | exact Hp |].
      intros [|m] Hm Hlen; [lia|]. rewrite bytesFrom_S. apply Hmax; simpl in Hlen; lia.
    + destruct (HasPrefix (String a s) sub) eqn:E; [|discriminate].
      intros [= <-]. repeat split; [lia | exact E |].
      intros [|m] Hm Hlen; [lia|]. rewrite bytesFrom_S.
      clear IH E. revert m Hm Hlen.
      assert (Hnone : forall m, (m <= String.length s)%nat -> HasPrefix (bytesFrom m s) sub = false).
      { clear a. induction s as [|b s IHs]; simpl in Ek.
        - destruct (HasPrefix "" sub) eqn:E; [discriminate|].
          intros [|m] Hm; [exact E | simpl in Hm; lia].
        - destruct (lastIndex s sub) eqn:Ek'; [discriminate|].
          destruct (HasPrefix (String b s) sub) eqn:E; [discriminate|].
          intros [|m] Hm; [exact E|]. rewrite bytesFrom_S. apply IHs; [reflexivity|].
          simpl in Hm. lia. }
      intros m _ Hlen. apply Hnone. simpl in Hlen. lia.
Qed.

Lemma lastIndex_None (s sub : string) :
  lastIndex s sub = None ->
  forall m, (m <= String.length s)%nat -> HasPrefix (bytesFrom m s) sub = false.
Proof.
  induction s as [|b s IHs]; simpl lastIndex.
  - destruct (HasPrefix "" sub) eqn:E; [discriminate|].
    intros _ [|m] Hm; [exact E | simpl in Hm; lia].
  - destruct (lastIndex s sub) eqn:Ek'; [discriminate|].
    destruct (HasPrefix (String b s) sub) eqn:E; [discriminate|].
    intros _ [|m] Hm; [exact E|]. rewrite bytesFrom_S. apply IHs; [reflexivity|].
    simpl in Hm. lia.
Qed.

End StringFacts.

(** ** The report: path trimming and the namespace split *)

Section ReportFacts.

Import strings.

Context `{GoRuntime}.

Lemma wrapInt_small (z : Z) : - 2 ^ 63 <= z < 2 ^ 63 -> wrapInt z = z.
Proof.
  intros Hz. unfold wrapInt.
  rewrite Z.mod_small; lia.
Qed.

Lemma bytesFrom_bytesFrom (n m : nat) (s : string) : bytesFrom m (bytesFrom n s) = bytesFrom (n + m) s.
Proof.
  revert s. induction n as [|n IH]; intros s; [reflexivity|].
  destruct s as [|a s]; simpl; [now destruct m | apply IH].
Qed.

Lemma HasPrefix_nonempty (s : string) (a : ascii) (sub : string) (n : nat) :
  HasPrefix (bytesFrom n s) (String a sub) = true -> (n < String.length s)%nat.
Proof.
  revert s. induction n as [|n IH]; intros [|b s] Hp; simpl in *;
    try discriminate; try lia.
  apply IH in Hp. lia.
Qed.

Lemma Contains_position (s sub : string) :
  Contains s sub <->
  exists n, (n <= String.length s)%nat /\ HasPrefix (bytesFrom n s) sub = true.
Proof.
  split.
  - intros [a Ha]. exists (String.length a). now apply OccursAt_position.
  - intros (n & Hn & Hp). exists (bytesTo n s). now apply position_OccursAt.
Qed.

(** Every slice expression of the path trimming is in range. *)
Lemma trim_slice_inRange (filePath prefix : string) :
  0 <= Index filePath prefix -> inRange filePath (Index filePath prefix).
Proof.
  unfold Index, inRange. destruct (firstIndex filePath prefix) as [n|] eqn:E; simpl; [|lia].
  apply firstIndex_Some in E as (Hn & _). lia.
Qed.

(** Every slice expression of the namespace split is in range. *)
Lemma split_slices_inRange (fn : string) :
  Spec.goString fn ->
  0 <= LastIndex fn "." ->
  inRange fn (LastIndex fn ".") /\ inRange fn (addInt (LastIndex fn ".") 1).
Proof.
  unfold LastIndex, inRange, Spec.goString, maxInt, addInt.
  destruct (lastIndex fn ".") as [n|] eqn:E; simpl toInt; [|lia].
  intros Hlen _. apply lastIndex_Some in E as (Hn & Hp & _).
  apply HasPrefix_nonempty in Hp.
  rewrite wrapInt_small; lia.
Qed.

Lemma trimPath_unchanged (filePath : string) (pathPrefixes : list string) :
  (forall p, In p pathPrefixes -> ~ Contains filePath p) ->
  trimPath filePath pathPrefixes = filePath.
Proof.
  induction pathPrefixes as [|p rest IH]; intros Hno; [reflexivity|].
  simpl. unfold Index. destruct (firstIndex filePath p) as [n|] eqn:E.
  - exfalso. apply (Hno p); [now left|].
    apply firstIndex_Some in E as (Hn & Hp & _).
    apply Contains_position. eauto.
  - simpl. apply IH. intros q Hq. apply Hno. now right.
Qed.

Lemma trimPath_first (filePath p : string) (before after : list string) :
  (forall q, In q before -> ~ Contains filePath q) ->
  Contains filePath p ->
  exists cut,
    filePath = cut +:+ trimPath filePath (before ++ p :: after)
    /\ Spec.StartsWith (trimPath filePath (before ++ p :: after)) p
    /\ forall a, OccursAt a p filePath -> (String.length cut <= String.length a)%nat.
Proof.
  intros Hno Hp. induction before as [|q before IH].
  - simpl. unfold Index. destruct (firstIndex filePath p) as [n|] eqn:E.
    + apply firstIndex_Some in E as (Hn & Hpre & Hmin).
      assert (Hge : (0 <=? toInt (Some n)) = true) by (apply Z.leb_le; simpl; lia).
      rewrite Hge. unfold sliceFrom. simpl toInt. rewrite Nat2Z.id.
      exists (bytesTo n filePath). repeat split.
      * symmetry. apply bytesTo_bytesFrom.
      * now apply HasPrefix_StartsWith.
      * intros a Ha. apply OccursAt_position in Ha as (Hla & Hpa).
        rewrite length_bytesTo by exact Hn.
        destruct (Nat.le_gt_cases n (String.length a)) as [Hle|Hlt]; [exact Hle|].
        rewrite (Hmin _ Hlt) in Hpa. discriminate.
    + exfalso. apply Contains_position in Hp as (m & Hm & Hpm).
      rewrite (firstIndex_None _ _ E m Hm) in Hpm. discriminate.
  - assert (Hq : Index filePath q = -1).
    { unfold Index. destruct (firstIndex filePath q) as [n|] eqn:E; [|reflexivity].
      exfalso. apply (Hno q); [now left|].
      apply firstIndex_Some in E as (Hn & Hpre & _).
      apply Contains_position. eauto. }
    simpl. rewrite Hq. simpl. apply IH. intros q' Hq'. apply Hno. now right.
Qed.

Lemma splitFunction_none (fn : string) :
  ~ Contains fn "." -> splitFunction fn = ("", fn).
Proof.
  intros Hno. unfold splitFunction, LastIndex.
  destruct (lastIndex fn ".") as [n|] eqn:E; [|reflexivity].
  exfalso. apply Hno. apply lastIndex_Some in E as (Hn & Hp & _).
  apply Contains_position. eauto.
Qed.

Lemma splitFunction_last (fn : string) :
  Spec.goString fn ->
  Contains fn "." ->
  fn = fst (splitFunction fn) +:+ "." +:+ snd (splitFunction fn)
  /\ ~ Contains (snd (splitFunction fn)) ".".
Proof.
  intros Hgo Hc. unfold splitFunction, LastIndex.
  destruct (lastIndex fn ".") as [n|] eqn:E.
  - apply lastIndex_Some in E as (Hn & Hp & Hmax).
    pose proof (HasPrefix_nonempty _ _ _ _ Hp) as Hlt.
    assert (Hge : (0 <=? toInt (Some n)) = true) by (apply Z.leb_le; simpl; lia).
    rewrite Hge. simpl fst. simpl snd. unfold sliceTo, sliceFrom, addInt. simpl toInt.
    unfold Spec.goString, maxInt in Hgo.
    rewrite wrapInt_small by lia.
    replace (Z.to_nat (Z.of_nat n + 1)) with (n + 1)%nat by lia.
    rewrite Nat2Z.id. rewrite <- bytesFrom_bytesFrom.
    apply HasPrefix_StartsWith in Hp as [rest Hrest].
    rewrite Hrest. change (bytesFrom 1 ("." +:+ rest)) with rest.
    split.
    + rewrite <- Hrest. symmetry. apply bytesTo_bytesFrom.
    + intros Hin. apply Contains_position in Hin as (m & Hm & Hpm).
      assert (Hrest' : rest = bytesFrom (n + 1) fn).
      { rewrite <- bytesFrom_bytesFrom, Hrest. reflexivity. }
      rewrite Hrest' in Hpm, Hm. rewrite bytesFrom_bytesFrom in Hpm.
      pose proof (HasPrefix_nonempty _ _ _ _ Hpm) as Hlt'.
      rewrite Hmax in Hpm; [discriminate | lia | lia].
  - exfalso. apply Contains_position in Hc as (m & Hm & Hpm).
    rewrite (lastIndex_None _ _ E m Hm) in Hpm. discriminate.
Qed.

Lemma noIgnoredPrefix_false (fn : string) (ignoredPrefixes : list string) :
  noIgnoredPrefix fn ignoredPrefixes = false <->
  exists p, In p ignoredPrefixes /\ Spec.StartsWith fn p.
Proof.
  induction ignoredPrefixes as [|q rest IH]; simpl.
  - split; [discriminate | now intros (p & [] & _)].
  - destruct (HasPrefix fn q) eqn:E.
    + split; [|reflexivity]. intros _. exists q. split; [now left|].
      now apply HasPrefix_StartsWith.
    + rewrite IH. split.
      * intros (p & Hp & Hs). exists p. split; [now right | exact Hs].
      * intros (p & [-> | Hp] & Hs); [|now exists p].
        apply HasPrefix_StartsWith in Hs. congruence.
Qed.

Lemma noIgnoredPrefix_Ignored (ignoredPrefixes : list string) (f : runtime.Frame) :
  noIgnoredPrefix (runtime.Function f) ignoredPrefixes = false <->
  Spec.Ignored ignoredPrefixes f.
Proof. apply noIgnoredPrefix_false. Qed.


Lemma skipIgnoredFrames_all (ignoredPrefixes : list string)
    (frames : list runtime.Frame) (frame outer : runtime.Frame) :
  (forall g, In g frames -> Spec.Ignored ignoredPrefixes g) ->
  last frames = Some outer ->
  skipIgnoredFrames ignoredPrefixes frames frame true = outer.
Proof.
  intros Hall Hlast. revert frame.
  induction frames as [|g frames IH]; intros frame; [discriminate|].
  assert (Hg : noIgnoredPrefix (runtime.Function g) ignoredPrefixes = false).
  { apply noIgnoredPrefix_Ignored, Hall. now left. }
  simpl. rewrite Hg. destruct frames as [|g' frames].
  - simpl in Hlast |- *. congruence.
  - apply IH; [intros; apply Hall; now right | exact Hlast].
Qed.

(** The walk sees the callers of [reportCodeLevelMetrics], the ten innermost
    at most. *)
Lemma walkStack_frames (callers : list runtime.Frame) :
  runtime.Callers (frCallers :: ownFrame "reportCodeLevelMetrics" 405 :: callers) 2 10
  = take 10 callers.
Proof. reflexivity. Qed.

Lemma walkStack_unfold (callers : list runtime.Frame) (tOpts : traceOptSet)
    (run : Config.CodeLevelMetrics) :
  callers <> [] ->
  walkStack callers tOpts run
  = Spec.locationOf
      (skipIgnoredFrames (elems (effectiveIgnoredPrefixes tOpts run))
         (take 10 callers) runtime.zeroFrame true).
Proof.
  intros Hne. unfold walkStack. rewrite walkStack_frames.
  destruct callers as [|f callers]; [contradiction|].
  replace (0 <? Z.of_nat (length (take 10 (f :: callers)))) with true.
  - rewrite Nat2Z.id. now rewrite firstn_all.
  - symmetry. apply Z.ltb_lt. simpl. lia.
Qed.

(** A stack deeper than ten frames is not walked in full: the walk is that of
    its ten innermost frames. *)
Lemma walkStack_window (callers : list runtime.Frame) (tOpts : traceOptSet)
    (run : Config.CodeLevelMetrics) :
  walkStack callers tOpts run = walkStack (take 10 callers) tOpts run.
Proof.
  unfold walkStack. rewrite !walkStack_frames.
  assert (E : take 10 (take 10 callers) = take 10 callers)
    by (rewrite take_take; f_equal).
  now rewrite E.
Qed.

End ReportFacts.

(** ** The report: what the specification states *)

Section ReportClaims.

Context `{GoRuntime}.


(** C2, as the code has it. [reportCodeLevelMetrics] does not look at
    [SuppressCLM]: whatever the settings, it calls [setAttr] four times, for
    the line number, the namespace, the file path and the function, and the
    calls are those it makes with [SuppressCLM] cleared. *)
Theorem report_emits_four_attributes (callers : list runtime.Frame) (tOpts : traceOptSet)
    (run : Config.CodeLevelMetrics) :
  reportCodeLevelMetrics callers tOpts run
  = reportCodeLevelMetrics callers (setSuppressCLM tOpts false) run
  /\ exists line namespace filePath function,
       reportCodeLevelMetrics callers tOpts run
       = [ (AttributeCodeLineno, "", Some line);
           (AttributeCodeNamespace, namespace, None);
           (AttributeCodeFilepath, filePath, None);
           (AttributeCodeFunction, function, None) ].
Proof.
  split; [reflexivity|].
  unfold reportCodeLevelMetrics.
  destruct (splitFunction _) as [namespace function]. eauto.
Qed.

Lemma report_emitted (callers : list runtime.Frame) (tOpts : traceOptSet)
    (run : Config.CodeLevelMetrics) :
  let location := resolveLocation callers tOpts run in
  let calls := reportCodeLevelMetrics callers tOpts run in
  Spec.emitted AttributeCodeNamespace calls = Some (fst (splitFunction (Function location)))
  /\ Spec.emitted AttributeCodeFilepath calls
     = Some (trimPath (FilePath location) (elems (effectivePathPrefixes tOpts run)))
  /\ Spec.emitted AttributeCodeFunction calls = Some (snd (splitFunction (Function location))).
Proof.
  unfold reportCodeLevelMetrics.
  destruct (splitFunction _) as [namespace function]. now repeat split.
Qed.

(** C8. [reportCodeLevelMetrics] reports the resolved file path cut at the
    first instance of the first prefix of the effective path-prefix list that
    is found within it, whatever prefixes follow that one in the list; when
    no prefix of the list is found within the path, it reports the path
    unchanged. With the list ["pkg/"], the path
    /home/user/project/src/pkg/file.go is reported as pkg/file.go. *)
Theorem report_trims_path (callers : list runtime.Frame) (tOpts : traceOptSet)
    (run : Config.CodeLevelMetrics) :
  let path := FilePath (resolveLocation callers tOpts run) in
  let prefixes := elems (effectivePathPrefixes tOpts run) in
  exists reported,
    Spec.emitted AttributeCodeFilepath (reportCodeLevelMetrics callers tOpts run)
    = Some reported
    /\ ((forall p, In p prefixes -> ~ strings.Contains path p) -> reported = path)
    /\ (forall before p after,
          prefixes = before ++ p :: after ->
          (forall q, In q before -> ~ strings.Contains path q) ->
          strings.Contains path p ->
          exists cut,
            path = cut +:+ reported
            /\ Spec.StartsWith reported p
            /\ forall a, strings.OccursAt a p path ->
                         (String.length cut <= String.length a)%nat)
    /\ forall loc, LocationOverride tOpts = Some loc ->
         FilePath loc = "/home/user/project/src/pkg/file.go" ->
         effectivePathPrefixes tOpts run = Some ["pkg/"] ->
         reported = "pkg/file.go".
Proof.
  intros path prefixes.
  destruct (report_emitted callers tOpts run) as (_ & Hpath & _).
  eexists. split; [exact Hpath|]. fold path prefixes.
  split; [|split].
  - apply trimPath_unchanged.
  - intros before p after -> Hbefore Hp. now apply trimPath_first.
  - intros loc Hloc Hfile Hpre. subst path prefixes.
    unfold resolveLocation. rewrite Hloc, Hfile, Hpre. reflexivity.
Qed.

(** C9. [reportCodeLevelMetrics] splits the function name of the resolved
    location at its last "." : the namespace is what precedes it and the
    function what follows it; a name without "." is reported whole as the
    function, with the empty namespace. "mypkg/sub.Handler" gives the
    namespace "mypkg/sub" and the function "Handler". *)
Theorem report_splits_function (callers : list runtime.Frame) (tOpts : traceOptSet)
    (run : Config.CodeLevelMetrics) :
  let name := Function (resolveLocation callers tOpts run) in
  Spec.goString name ->
  exists namespace function,
    Spec.emitted AttributeCodeNamespace (reportCodeLevelMetrics callers tOpts run)
    = Some namespace
    /\ Spec.emitted AttributeCodeFunction (reportCodeLevelMetrics callers tOpts run)
       = Some function
    /\ (~ strings.Contains name "." -> namespace = "" /\ function = name)
    /\ (strings.Contains name "." ->
        name = namespace +:+ "." +:+ function /\ ~ strings.Contains function ".")
    /\ (name = "mypkg/sub.Handler" -> namespace = "mypkg/sub" /\ function = "Handler").
Proof.
  intros name Hgo.
  destruct (report_emitted callers tOpts run) as (Hns & _ & Hfn).
  do 2 eexists. split; [exact Hns|]. split; [exact Hfn|]. fold name.
  split; [|split].
  - intros Hno. rewrite (splitFunction_none _ Hno). now split.
  - intros Hc. now apply splitFunction_last.
  - intros Hname. rewrite Hname. now split.
Qed.

End ReportClaims.



(** C2 fails as stated: with [SuppressCLM] set, the four attributes are
    emitted all the same. *)
Lemma report_suppressed_emits :
  SuppressCLM Example.suppressed = true
  /\ @reportCodeLevelMetrics Example.goRuntime [] Example.suppressed Example.noConfig
     = [ (AttributeCodeLineno, "", Some 42);
         (AttributeCodeNamespace, "mypkg/sub", None);
         (AttributeCodeFilepath, "/home/user/project/src/pkg/file.go", None);
         (AttributeCodeFunction, "Handler", None) ].
Proof. split; reflexivity. Qed.

(** C8 at the path of the specification, with a prefix that is found and with
    one that is not. *)
Lemma report_trims_path_witness :
  (exists cut,
      "/home/user/project/src/pkg/file.go" = cut +:+ "pkg/file.go"
      /\ Spec.emitted AttributeCodeFilepath
           (@reportCodeLevelMetrics Example.goRuntime [] Example.trimPkg Example.noConfig)
         = Some "pkg/file.go")
  /\ Spec.emitted AttributeCodeFilepath
       (@reportCodeLevelMetrics Example.goRuntime [] Example.trimNothing Example.noConfig)
     = Some "/home/user/project/src/pkg/file.go".
Proof.
  split.
  - destruct (@report_trims_path Example.goRuntime [] Example.trimPkg Example.noConfig)
      as (reported & Hem & _ & Hfirst & Hex).
    assert (Hrep : reported = "pkg/file.go") by (apply (Hex Example.inPkg); reflexivity).
    destruct (Hfirst [] "pkg/" [] eq_refl) as (cut & Hcut & _).
    + intros q [].
    + exists "/home/user/project/src/". now exists "file.go".
    + exists cut. rewrite Hrep in Hcut, Hem. split; [exact Hcut | exact Hem].
  - destruct (@report_trims_path Example.goRuntime [] Example.trimNothing Example.noConfig)
      as (reported & Hem & Hunchanged & _).
    rewrite Hem. f_equal. apply Hunchanged.
    intros p [<- | []] Hc.
    apply Contains_position in Hc as (n & Hn & Hp).
    exact (eq_true_false_abs _ Hp
             (firstIndex_None "/home/user/project/src/pkg/file.go" "vendor/" eq_refl n Hn)).
Defined.

(** C9 at the name of the specification, and at a name without separator. *)
Lemma report_splits_function_witness :
  Spec.goString "mypkg/sub.Handler"
  /\ Spec.emitted AttributeCodeNamespace
       (@reportCodeLevelMetrics Example.goRuntime [] Example.trimPkg Example.noConfig)
     = Some "mypkg/sub"
  /\ Spec.emitted AttributeCodeFunction
       (@reportCodeLevelMetrics Example.goRuntime [] Example.trimPkg Example.noConfig)
     = Some "Handler"
  /\ Spec.emitted AttributeCodeNamespace
       (@reportCodeLevelMetrics Example.goRuntime [] Example.noSeparator Example.noConfig)
     = Some ""
  /\ Spec.emitted AttributeCodeFunction
       (@reportCodeLevelMetrics Example.goRuntime [] Example.noSeparator Example.noConfig)
     = Some "main".
Proof.
  assert (Hgo : Spec.goString "mypkg/sub.Handler") by (vm_compute; discriminate).
  assert (Hgo' : Spec.goString "main") by (vm_compute; discriminate).
  split; [exact Hgo|].
  destruct (@report_splits_function Example.goRuntime [] Example.trimPkg Example.noConfig Hgo)
    as (namespace & function & Hns & Hfn & _ & Hlast & Hex).
  destruct (Hex eq_refl) as [-> ->].
  destruct (@report_splits_function Example.goRuntime [] Example.noSeparator Example.noConfig Hgo')
    as (namespace' & function' & Hns' & Hfn' & Hnone & _).
  destruct Hnone as [-> ->].
  - intros Hc. apply Contains_position in Hc as (n & Hn & Hp).
    exact (eq_true_false_abs _ Hp (lastIndex_None "main" "." eq_refl n Hn)).
  - repeat split; assumption.
Defined.

(** ** The options *)

Section OptionClaims.

Context `{GoRuntime}.

Lemma applyOptions_quiet (options rest : list TraceOption) (h : Heap) (optSet : traceOptSet) :
  (forall k, (k < length options)%nat ->
             SuppressCLM (snd (Spec.foldOptions (take (S k) options) h optSet)) = false) ->
  applyOptions (options ++ rest) h optSet
  = applyOptions rest (fst (Spec.foldOptions options h optSet))
      (snd (Spec.foldOptions options h optSet)).
Proof.
  revert h optSet. induction options as [|o options IH]; intros h optSet Hquiet; [reflexivity|].
  simpl. destruct (o h optSet) as [h' optSet'] eqn:Eo.
  pose proof (Hquiet 0%nat ltac:(simpl; lia)) as H0.
  unfold Spec.foldOptions in H0. simpl in H0. rewrite Eo in H0. simpl in H0.
  rewrite H0. unfold Spec.foldOptions. simpl. rewrite Eo. apply IH.
  intros k Hk. specialize (Hquiet (S k) ltac:(simpl; lia)).
  unfold Spec.foldOptions in Hquiet. simpl in Hquiet. rewrite Eo in Hquiet. exact Hquiet.
Qed.

Lemma foldOptions_app (pre post : list TraceOption) (h : Heap) (optSet : traceOptSet) :
  Spec.foldOptions (pre ++ post) h optSet
  = Spec.foldOptions post (fst (Spec.foldOptions pre h optSet))
      (snd (Spec.foldOptions pre h optSet)).
Proof.
  unfold Spec.foldOptions. rewrite fold_left_app.
  now rewrite <- surjective_pairing.
Qed.

Lemma applyOptions_stops (pre post : list TraceOption) (o : TraceOption)
    (h : Heap) (optSet : traceOptSet) :
  (forall h' optSet', SuppressCLM (snd (o h' optSet')) = true) ->
  applyOptions (pre ++ o :: post) h optSet = applyOptions (pre ++ [o]) h optSet.
Proof.
  intros Ho. revert h optSet. induction pre as [|p pre IH]; intros h optSet; simpl.
  - specialize (Ho h optSet). destruct (o h optSet) as [h' optSet']. simpl in Ho.
    now rewrite Ho.
  - destruct (p h optSet) as [h' optSet']. destruct (SuppressCLM optSet'); [reflexivity|].
    apply IH.
Qed.

Lemma applyOptions_suppressed (options : list TraceOption) (o : TraceOption)
    (h : Heap) (optSet : traceOptSet) :
  (forall h' optSet', SuppressCLM (snd (o h' optSet')) = true) ->
  SuppressCLM (snd (applyOptions (options ++ [o]) h optSet)) = true.
Proof.
  intros Ho. revert h optSet. induction options as [|p pre IH]; intros h optSet; simpl.
  - specialize (Ho h optSet). destruct (o h optSet) as [h' optSet']. simpl in Ho.
    now rewrite Ho.
  - destruct (p h optSet) as [h' optSet']. destruct (SuppressCLM optSet') eqn:E; [exact E|].
    apply IH.
Qed.

(** C4. [resolveCLMTraceOptions] starts from the zero settings and applies
    the options left to right; it is the fold of the whole sequence while
    [SuppressCLM] stays false, and the fold of the sequence up to the first
    option after which [SuppressCLM] is true. After a suppression option the
    options that follow have no effect: the result is that of the sequence
    cut after the suppression option. *)
Theorem resolveCLMTraceOptions_stops_at_suppression :
  (forall h, resolveCLMTraceOptions [] h = (h, zeroTraceOptSet))
  /\ (forall options h,
        (forall k, (k < length options)%nat ->
           SuppressCLM (snd (Spec.foldOptions (take (S k) options) h zeroTraceOptSet)) = false) ->
        resolveCLMTraceOptions options h = Spec.foldOptions options h zeroTraceOptSet)
  /\ (forall pre o post h,
        (forall k, (k < length pre)%nat ->
           SuppressCLM (snd (Spec.foldOptions (take (S k) pre) h zeroTraceOptSet)) = false) ->
        SuppressCLM (snd (Spec.foldOptions (pre ++ [o]) h zeroTraceOptSet)) = true ->
        resolveCLMTraceOptions (pre ++ o :: post) h
        = Spec.foldOptions (pre ++ [o]) h zeroTraceOptSet)
  /\ (forall pre post h,
        resolveCLMTraceOptions (pre ++ WithoutCodeLevelMetrics :: post) h
        = resolveCLMTraceOptions (pre ++ [WithoutCodeLevelMetrics]) h
        /\ SuppressCLM (snd (resolveCLMTraceOptions (pre ++ WithoutCodeLevelMetrics :: post) h))
           = true).
Proof.
  unfold resolveCLMTraceOptions. split; [reflexivity|]. split; [|split].
  - intros options h Hquiet.
    rewrite <- (app_nil_r options) at 1. rewrite applyOptions_quiet by exact Hquiet.
    simpl. now destruct (Spec.foldOptions options h zeroTraceOptSet).
  - intros pre o post h Hquiet Hsup.
    rewrite applyOptions_quiet by exact Hquiet.
    rewrite foldOptions_app in Hsup |- *.
    destruct (Spec.foldOptions pre h zeroTraceOptSet) as [h' optSet'].
    unfold Spec.foldOptions in Hsup |- *. simpl in Hsup |- *.
    destruct (o h' optSet') as [h'' optSet'']. simpl in Hsup. now rewrite Hsup.
  - intros pre post h.
    assert (Hw : forall h' optSet',
               SuppressCLM (snd (WithoutCodeLevelMetrics h' optSet')) = true) by reflexivity.
    rewrite (applyOptions_stops pre post _ h _ Hw). split; [reflexivity|].
    now apply applyOptions_suppressed.
Qed.

(** C6, as the code has it. [FunctionLocation] fails with an
    invalid-argument error on the [nil] interface and on every value that is
    not a function, fails with a not-found error on a function value the
    runtime has no metadata for (a [nil] func value among them), and
    otherwise returns the line, the name and the file of the function's entry.
    The options built on it ([WithFunctionLocation],
    [WithDefaultFunctionLocation] and their cached forms) leave the settings
    as they are when the resolution they use returns an error. *)
Theorem FunctionLocation_errors_are_swallowed :
  (exists e, FunctionLocation VNil = (None, Some e)
             /\ Spec.errorClass e = Some Spec.InvalidArgument)
  /\ (forall v, v <> VNil -> reflect.KindOf v <> reflect.Func ->
        exists e, FunctionLocation v = (None, Some e)
                  /\ Spec.errorClass e = Some Spec.InvalidArgument)
  /\ (forall p, FuncForPC p = None ->
        exists e, FunctionLocation (VFunc p) = (None, Some e)
                  /\ Spec.errorClass e = Some Spec.NotFound)
  /\ (forall p fInfo, FuncForPC p = Some fInfo ->
        FunctionLocation (VFunc p)
        = (Some (mkCodeLocation (runtime.EntryLine fInfo) (runtime.Name fInfo)
                   (runtime.EntryFile fInfo)), None))
  /\ (forall function e h o,
        snd (FunctionLocation function) = Some e ->
        WithFunctionLocation function h o = (h, o)
        /\ WithDefaultFunctionLocation function h o = (h, o))
  /\ (forall c function e h o,
        snd (snd (Cached.FunctionLocation c function h)) = Some e ->
        snd (CachedOptions.WithFunctionLocation c function h o) = o
        /\ snd (CachedOptions.WithDefaultFunctionLocation c function h o) = o)
  /\ (forall c function e h o,
        sync.done (once (load h c)) = false ->
        snd (FunctionLocation function) = Some e ->
        snd (CachedOptions.WithFunctionLocation c function h o) = o
        /\ snd (CachedOptions.WithDefaultFunctionLocation c function h o) = o).
Proof.
  assert (Hcached : forall c function e h o,
             snd (snd (Cached.FunctionLocation c function h)) = Some e ->
             snd (CachedOptions.WithFunctionLocation c function h o) = o
             /\ snd (CachedOptions.WithDefaultFunctionLocation c function h o) = o).
  { intros c function e h o He.
    unfold CachedOptions.WithFunctionLocation, CachedOptions.WithDefaultFunctionLocation.
    destruct (Cached.FunctionLocation c function h) as [h' [loc err]].
    simpl in He. subst err. split; [reflexivity|].
    now destruct (LocationOverride o). }
  split; [|split; [|split; [|split; [|split; [|split]]]]].
  - eexists. split; reflexivity.
  - intros v Hnil Hkind.
    exists "value passed to FunctionLocation is not a function". split; [|reflexivity].
    destruct v; try reflexivity; [now destruct Hnil | now destruct Hkind].
  - intros p Hp.
    exists "could not find code location for function". split; [|reflexivity].
    unfold FunctionLocation. simpl. now rewrite Hp.
  - intros p fInfo Hp. unfold FunctionLocation. simpl. now rewrite Hp.
  - intros function e h o He.
    unfold WithDefaultFunctionLocation, WithFunctionLocation.
    destruct (FunctionLocation function) as [loc err]. simpl in He. subst err.
    split; [reflexivity|]. now destruct (LocationOverride o).
  - exact Hcached.
  - intros c function e h o Hfresh He. apply (Hcached c function e).
    unfold Cached.FunctionLocation, Cached.onceDo, Cached.functionLocationFunc1.
    rewrite Hfresh. destruct (FunctionLocation function) as [loc err].
    simpl in He |- *. unfold load. now rewrite lookup_insert_eq.
Qed.

(** C7. With [LocationOverride] already set, [WithDefaultFunctionLocation],
    standalone or cached, changes nothing, the settings and the cache alike;
    with [LocationOverride] unset it is [WithFunctionLocation]. After an
    option that sets an override, it leaves that override in place. *)
Theorem WithDefaultFunctionLocation_keeps_override :
  (forall function c h o loc,
      LocationOverride o = Some loc ->
      WithDefaultFunctionLocation function h o = (h, o)
      /\ CachedOptions.WithDefaultFunctionLocation c function h o = (h, o))
  /\ (forall function c h o,
        LocationOverride o = None ->
        WithDefaultFunctionLocation function h o = WithFunctionLocation function h o
        /\ CachedOptions.WithDefaultFunctionLocation c function h o
           = CachedOptions.WithFunctionLocation c function h o)
  /\ (forall function c h loc,
        LocationOverride
          (snd (resolveCLMTraceOptions
                  [WithCodeLocation (Some loc); WithDefaultFunctionLocation function] h))
        = Some loc
        /\ LocationOverride
             (snd (resolveCLMTraceOptions
                     [WithCodeLocation (Some loc);
                      CachedOptions.WithDefaultFunctionLocation c function] h))
           = Some loc).
Proof.
  split; [|split].
  - intros function c h o loc Hset.
    unfold WithDefaultFunctionLocation, CachedOptions.WithDefaultFunctionLocation.
    now rewrite Hset.
  - intros function c h o Hunset.
    unfold WithDefaultFunctionLocation, CachedOptions.WithDefaultFunctionLocation,
      CachedOptions.WithFunctionLocation.
    rewrite Hunset. split; [reflexivity|].
    destruct (Cached.FunctionLocation c function h) as [h' [loc err]].
    now destruct err.
  - intros function c h loc. split; reflexivity.
Qed.

End OptionClaims.

(** C4 at a sequence with a suppression option in second place, and at a
    sequence without one. *)
Lemma resolveCLMTraceOptions_stops_at_suppression_witness :
  snd (resolveCLMTraceOptions Example.suppressThenMore ∅)
  = mkTraceOptSet (Some Example.inPkg) true false None None
  /\ snd (resolveCLMTraceOptions Example.neverSuppressed ∅)
     = mkTraceOptSet None false true None (Some ["pkg/"]).
Proof.
  destruct resolveCLMTraceOptions_stops_at_suppression as (_ & Hall & Hfirst & Hlater).
  split.
  - unfold Example.suppressThenMore.
    rewrite (Hfirst [WithCodeLocation (Some Example.inPkg)] WithoutCodeLevelMetrics
               [WithPathPrefix (Some ["pkg/"]); WithCodeLevelMetrics] ∅).
    + reflexivity.
    + intros [|k] Hk; [reflexivity | simpl in Hk; lia].
    + reflexivity.
  - rewrite (Hall Example.neverSuppressed ∅).
    + reflexivity.
    + intros [|[|k]] Hk; [reflexivity | reflexivity | simpl in Hk; lia].
Defined.

(** C6 at the argument 42, at a function without metadata and at a known
    function; the options at the argument 42, with an override already set. *)
Lemma FunctionLocation_errors_are_swallowed_witness :
  (exists e, @FunctionLocation Example.goRuntime (VInt 42) = (None, Some e)
             /\ Spec.errorClass e = Some Spec.InvalidArgument)
  /\ (exists e, @FunctionLocation Example.goRuntime (VFunc 0) = (None, Some e)
                /\ Spec.errorClass e = Some Spec.NotFound)
  /\ @FunctionLocation Example.goRuntime Example.handler
     = (Some (mkCodeLocation 12 "main.handler" "/app/main.go"), None)
  /\ @WithFunctionLocation Example.goRuntime (VInt 42) ∅ Example.trimPkg = (∅, Example.trimPkg)
  /\ snd (@CachedOptions.WithDefaultFunctionLocation Example.goRuntime 0%nat (VInt 42) ∅
            zeroTraceOptSet) = zeroTraceOptSet.
Proof.
  destruct (@FunctionLocation_errors_are_swallowed Example.goRuntime)
    as (_ & Hkind & Hnone & Hsome & Hplain & _ & Hfresh).
  split; [|split; [|split; [|split]]].
  - apply (Hkind (VInt 42)); discriminate.
  - exact (Hnone 0 eq_refl).
  - exact (Hsome 4198400 _ eq_refl).
  - exact (proj1 (Hplain (VInt 42) _ ∅ Example.trimPkg eq_refl)).
  - exact (proj2 (Hfresh 0%nat (VInt 42) _ ∅ zeroTraceOptSet eq_refl eq_refl)).
Defined.

(** C6 fails as stated: a [nil] func value is not the [nil] interface. Its
    kind is [Func], its code pointer is 0, and the error it gets is the
    not-found one, not the invalid-argument one. *)
Lemma FunctionLocation_nil_func_is_not_found :
  isNilInterface (VFunc 0) = false
  /\ reflect.KindOf (VFunc 0) = reflect.Func
  /\ reflect.Pointer (VFunc 0) = 0
  /\ @FunctionLocation Example.goRuntime (VFunc 0)
     = (None, Some "could not find code location for function")
  /\ Spec.errorClass "could not find code location for function" = Some Spec.NotFound
  /\ Spec.errorClass "could not find code location for function"
     <> Some Spec.InvalidArgument.
Proof. repeat split; try reflexivity. discriminate. Qed.

(** C7 at settings that carry an override, and at the zero settings. *)
Lemma WithDefaultFunctionLocation_keeps_override_witness :
  @WithDefaultFunctionLocation Example.goRuntime Example.handler ∅ Example.trimPkg
  = (∅, Example.trimPkg)
  /\ @CachedOptions.WithDefaultFunctionLocation Example.goRuntime 0%nat Example.handler ∅
       Example.trimPkg = (∅, Example.trimPkg)
  /\ LocationOverride
       (snd (@CachedOptions.WithDefaultFunctionLocation Example.goRuntime 0%nat
               Example.handler ∅ zeroTraceOptSet))
     = LocationOverride
         (snd (@CachedOptions.WithFunctionLocation Example.goRuntime 0%nat
                 Example.handler ∅ zeroTraceOptSet)).
Proof.
  destruct (@WithDefaultFunctionLocation_keeps_override Example.goRuntime)
    as (Hset & Hunset & _).
  destruct (Hset Example.handler 0%nat ∅ Example.trimPkg Example.inPkg eq_refl) as [H1 H2].
  destruct (Hunset Example.handler 0%nat ∅ zeroTraceOptSet eq_refl) as [_ H3].
  split; [exact H1|]. split; [exact H2|]. now rewrite H3.
Defined.

(** ** The cache, one caller at a time *)

Section CacheClaims.

Context `{GoRuntime}.

Lemma load_insert (h : Heap) (c : nat) (cc : CachedCodeLocation) :
  load (<[c := cc]> h) c = cc.
Proof. unfold load. now rewrite lookup_insert_eq. Qed.

Lemma onceDo_done (c : nat) (f : CachedCodeLocation -> CachedCodeLocation) (h : Heap) :
  sync.done (once (load h c)) = true -> Cached.onceDo c f h = h.
Proof. intros Hdone. unfold Cached.onceDo. now rewrite Hdone. Qed.

Lemma onceDo_fresh (c : nat) (f : CachedCodeLocation -> CachedCodeLocation) (h : Heap) :
  sync.done (once (load h c)) = false ->
  Cached.onceDo c f h
  = <[c := mkCached (Location (f (load h c))) (Err (f (load h c))) (sync.mkOnce true)]> h.
Proof. intros Hfresh. unfold Cached.onceDo. now rewrite Hfresh. Qed.

(** On an instance whose [once] is done, an invocation resolves nothing and
    returns what is stored. *)
Lemma invoke_done (call : Cached.Call) (c : nat) (h : Heap) :
  sync.done (once (load h c)) = true ->
  Cached.invoke call c h
  = (h, Cached.returnOf (Location (load h c), Err (load h c)) call).
Proof.
  intros Hdone. destruct call; simpl;
    unfold Cached.FunctionLocation, Cached.ThisCodeLocation;
    now rewrite onceDo_done.
Qed.

(** On a fresh instance, an invocation stores its own resolution. *)
Lemma invoke_fresh (call : Cached.Call) (c : nat) (h : Heap) :
  sync.done (once (load h c)) = false ->
  Cached.invoke call c h
  = (<[c := mkCached (fst (Cached.resolution call)) (snd (Cached.resolution call))
             (sync.mkOnce true)]> h,
     Cached.returnOf (Cached.resolution call) call).
Proof.
  intros Hfresh. destruct call; simpl;
    unfold Cached.FunctionLocation, Cached.ThisCodeLocation;
    rewrite onceDo_fresh by exact Hfresh; rewrite load_insert.
  - now destruct (Cached.functionLocationFunc1 function).
  - now destruct (Cached.thisCodeLocationFunc1 callers (Cached.skipOf skiplevels)).
Qed.

Lemma invokeAll_done (calls : list Cached.Call) (c : nat) (h : Heap) :
  sync.done (once (load h c)) = true ->
  Cached.invokeAll calls c h
  = (h, map (Cached.returnOf (Location (load h c), Err (load h c))) calls).
Proof.
  intros Hdone. induction calls as [|call calls IH]; [reflexivity|].
  simpl. rewrite invoke_done by exact Hdone. now rewrite IH.
Qed.

(** C10. The two resolution methods of an instance share its [once]: on a
    fresh instance the first invocation, of either method, stores its
    resolution, and every invocation after it, of either method and with any
    argument, returns that stored pair and resolves nothing. *)
Theorem first_invocation_fixes_the_cache (first : Cached.Call) (later : list Cached.Call)
    (c : nat) (h : Heap) :
  sync.done (once (load h c)) = false ->
  let r := Cached.resolution first in
  Cached.invokeAll (first :: later) c h
  = (<[c := mkCached (fst r) (snd r) (sync.mkOnce true)]> h,
     map (Cached.returnOf r) (first :: later)).
Proof.
  intros Hfresh r. simpl. rewrite invoke_fresh by exact Hfresh.
  rewrite invokeAll_done by now rewrite load_insert.
  now rewrite load_insert.
Qed.

Lemma ThisCodeLocation_frame (callers : list runtime.Frame) (skip : Z) :
  0 <= skip <= maxInt - 2 ->
  ThisCodeLocation callers [skip]
  = match drop (Z.to_nat skip) callers with
    | f :: _ => Spec.locationOf f
    | [] => zeroCodeLocation
    end.
Proof.
  intros Hskip. unfold maxInt in Hskip. unfold ThisCodeLocation, addInt, runtime.Callers.
  rewrite wrapInt_small by lia.
  replace (Z.to_nat (2 + skip)) with (2 + Z.to_nat skip)%nat by lia.
  simpl drop. destruct (drop (Z.to_nat skip) callers) as [|f rest]; reflexivity.
Qed.

(** The function literal of the cached method sees the same frame: its four
    added levels skip itself, [doSlow], [Do] and the method. *)
Lemma thisCodeLocationFunc1_frame (callers : list runtime.Frame) (skip : Z) :
  0 <= skip <= maxInt - 6 ->
  Cached.thisCodeLocationFunc1 callers skip
  = (Some match drop (Z.to_nat skip) callers with
          | f :: _ => Spec.locationOf f
          | [] => zeroCodeLocation
          end, None).
Proof.
  intros Hskip. unfold maxInt in Hskip.
  unfold Cached.thisCodeLocationFunc1, ThisCodeLocation, addInt, runtime.Callers, onceCallsWith.
  rewrite (wrapInt_small (skip + 4)) by lia. rewrite wrapInt_small by lia.
  replace (Z.to_nat (2 + (skip + 4))) with (6 + Z.to_nat skip)%nat by lia.
  simpl drop. destruct (drop (Z.to_nat skip) callers) as [|f rest]; reflexivity.
Qed.

(** C5, as the code has it. On a fresh instance and for a skip count that is
    not negative (and small enough for the additions not to overflow), the
    cached [ThisCodeLocation] returns the location its stand-alone namesake
    returns when called with the same stack: the four levels it adds are the
    frames of the method, of [Do], of [doSlow] and of the function literal.
    The same holds when no skip count is given. *)
Theorem cached_ThisCodeLocation_skips_its_wrappers (callers : list runtime.Frame)
    (c : nat) (h : Heap) (skip : Z) :
  sync.done (once (load h c)) = false ->
  0 <= skip <= maxInt - 6 ->
  snd (Cached.ThisCodeLocation callers c [skip] h) = Some (ThisCodeLocation callers [skip])
  /\ snd (Cached.ThisCodeLocation callers c [] h) = Some (ThisCodeLocation callers []).
Proof.
  intros Hfresh Hskip. unfold Cached.ThisCodeLocation.
  rewrite !onceDo_fresh by exact Hfresh. rewrite !load_insert.
  split.
  - unfold Cached.skipOf. rewrite thisCodeLocationFunc1_frame by exact Hskip.
    unfold maxInt in Hskip. rewrite ThisCodeLocation_frame by (unfold maxInt; lia).
    reflexivity.
  - reflexivity.
Qed.

End CacheClaims.

(** C10 at an instance first used by [ThisCodeLocation]: [FunctionLocation],
    called afterwards with 42 and with a function, returns the caller's
    location and no error. *)
Lemma first_invocation_fixes_the_cache_witness :
  sync.done (once (load ∅ 0%nat)) = false
  /\ snd (@Cached.invokeAll Example.goRuntime
            [ Cached.CallThisCodeLocation [Example.frameA] [];
              Cached.CallFunctionLocation (VInt 42);
              Cached.CallFunctionLocation Example.handler ] 0%nat ∅)
     = [ Cached.RetThisCodeLocation (Some (Spec.locationOf Example.frameA));
         Cached.RetFunctionLocation (Some (Spec.locationOf Example.frameA)) None;
         Cached.RetFunctionLocation (Some (Spec.locationOf Example.frameA)) None ].
Proof.
  split; [reflexivity|].
  rewrite (@first_invocation_fixes_the_cache Example.goRuntime); reflexivity.
Defined.

(** C5 at the skip counts 0 and 1 of a two-frame stack. *)
Lemma cached_ThisCodeLocation_skips_its_wrappers_witness :
  snd (@Cached.ThisCodeLocation Example.goRuntime [Example.frameA; Example.frameB]
         0%nat [1] ∅)
  = Some (@ThisCodeLocation Example.goRuntime [Example.frameA; Example.frameB] [1])
  /\ snd (@Cached.ThisCodeLocation Example.goRuntime [Example.frameA; Example.frameB]
            0%nat [] ∅)
     = Some (@ThisCodeLocation Example.goRuntime [Example.frameA; Example.frameB] []).
Proof.
  apply (@cached_ThisCodeLocation_skips_its_wrappers Example.goRuntime).
  - reflexivity.
  - unfold maxInt. lia.
Defined.

(** C5 fails as stated: with the skip count -1 the stand-alone function
    returns its own frame, and the cached method returns the frame of the
    method. *)
Lemma cached_ThisCodeLocation_negative_skip :
  sync.done (once (load ∅ 0%nat)) = false
  /\ Function (@ThisCodeLocation Example.goRuntime [Example.frameA] [-1])
     = "github.com/newrelic/go-agent/v3/newrelic.ThisCodeLocation"
  /\ option_map Function
       (snd (@Cached.ThisCodeLocation Example.goRuntime [Example.frameA] 0%nat [-1] ∅))
     = Some "github.com/newrelic/go-agent/v3/newrelic.(*CachedCodeLocation).ThisCodeLocation"
  /\ snd (@Cached.ThisCodeLocation Example.goRuntime [Example.frameA] 0%nat [-1] ∅)
     <> Some (@ThisCodeLocation Example.goRuntime [Example.frameA] [-1]).
Proof.
  split; [reflexivity|]. split; [reflexivity|]. split; [reflexivity|].
  intros Heq. apply (f_equal (option_map LineNo)) in Heq. vm_compute in Heq. discriminate Heq.
Qed.

(** The upper bound of C5: with the skip count [maxInt - 3] the addition of
    the cached method wraps around to a negative count, which skips nothing,
    while the stand-alone function skips the whole stack. *)
Lemma cached_ThisCodeLocation_overflowing_skip :
  Function (@ThisCodeLocation Example.goRuntime [Example.frameA] [maxInt - 3]) = ""
  /\ option_map Function
       (snd (@Cached.ThisCodeLocation Example.goRuntime [Example.frameA] 0%nat [maxInt - 3] ∅))
     = Some "runtime.Callers".
Proof.
  assert (Hfar : forall l : list runtime.Frame,
             (length l <= 3)%nat -> drop (Z.to_nat (maxInt - 1)) l = []).
  { intros l Hl. apply drop_ge. unfold maxInt. lia. }
  split.
  - unfold ThisCodeLocation, addInt, runtime.Callers.
    replace (wrapInt (2 + (maxInt - 3))) with (maxInt - 1) by reflexivity.
    rewrite Hfar by (simpl; lia). reflexivity.
  - unfold Cached.ThisCodeLocation.
    rewrite onceDo_fresh by reflexivity. rewrite load_insert. reflexivity.
Qed.

(** ** The cache under concurrent callers *)

Section ConcurrentClaims.

Import Cached Concurrent.

Context `{GoRuntime}.

Lemma lookup_goto (ths : list Thread) (i j : nat) (t tj : Thread) (p : PC) :
  ths !! i = Some t ->
  <[i := mkThread (call t) p]> ths !! j = Some tj ->
  (j = i /\ tj = mkThread (call t) p) \/ (j <> i /\ ths !! j = Some tj).
Proof.
  intros Hi Hj. destruct (decide (j = i)) as [->|Hne].
  - left. split; [reflexivity|].
    rewrite list_lookup_insert_eq in Hj by (eapply lookup_lt_Some; eassumption).
    congruence.
  - right. split; [exact Hne|]. now rewrite list_lookup_insert_ne in Hj by congruence.
Qed.

Lemma lookup_goto_call (ths : list Thread) (i w : nat) (t tw : Thread) (p : PC) :
  ths !! i = Some t ->
  ths !! w = Some tw ->
  exists tw', <[i := mkThread (call t) p]> ths !! w = Some tw' /\ call tw' = call tw.
Proof.
  intros Hi Hw. destruct (decide (w = i)) as [->|Hne].
  - exists (mkThread (call t) p). split.
    + apply list_lookup_insert_eq. eapply lookup_lt_Some; eassumption.
    + simpl. congruence.
  - exists tw. split; [|reflexivity]. now rewrite list_lookup_insert_ne by congruence.
Qed.

Lemma lookup_goto_self (ths : list Thread) (i : nat) (t : Thread) (p : PC) :
  ths !! i = Some t ->
  <[i := mkThread (call t) p]> ths !! i = Some (mkThread (call t) p).
Proof. intros Hi. apply list_lookup_insert_eq. eapply lookup_lt_Some; eassumption. Qed.

Lemma init_Inv (calls : list Call) : Inv (init calls).
Proof.
  constructor; simpl; try discriminate; try reflexivity; try contradiction.
  intros i t Hi. change (map ?f calls) with (f <$> calls) in Hi.
  rewrite list_lookup_fmap in Hi. destruct (calls !! i); [|discriminate].
  injection Hi as <-. exact I.
Qed.

(** The facts about the other invocations survive a step of invocation [i]. *)
Ltac other_thread Hth Hi :=
  match goal with
  | Hj : ?ths !! ?j = Some ?tj, Hne : ?j <> _ |- _ =>
      let Hjok := fresh "Hjok" in
      pose proof (Hth j tj Hj) as Hjok;
      unfold threadOK, isDone, stores in Hjok, Hi |- *; simpl in Hjok, Hi |- *;
      destruct (pc tj); simpl in Hjok |- *;
      try exact I; intuition (try congruence)
  end.

(** The invocations after a step: the one that moved, and the others. *)
Ltac threads_after Ht Hth Hi :=
  let j := fresh "j" in
  let tj := fresh "tj" in
  let Hj := fresh "Hj" in
  let Hne := fresh "Hne" in
  let Hj' := fresh "Hj'" in
  intros j tj Hj;
  destruct (lookup_goto _ _ _ _ _ _ Ht Hj) as [[-> ->] | [Hne Hj']];
  [ unfold threadOK, isDone, stores in Hi |- *; simpl in Hi |- *;
    intuition (try congruence); eauto
  | other_thread Hth Hi ].

(** The holder of the mutex after a step that leaves the mutex as it is. *)
Ltac owner_after i Ht Hown :=
  let j := fresh "j" in
  let Hm := fresh "Hm" in
  let tj := fresh "tj" in
  let Htj := fresh "Htj" in
  let Hh := fresh "Hh" in
  let Hne := fresh "Hne" in
  intros j Hm; destruct (Hown j Hm) as (tj & Htj & Hh);
  destruct (decide (j = i)) as [->|Hne];
  [ rewrite Ht in Htj; injection Htj as <-;
    eexists; split; [apply (lookup_goto_self _ _ _ _ Ht) | exact Hh || exact I]
  | exists tj; split; [now rewrite list_lookup_insert_ne by congruence | exact Hh] ].

(** The resolutions logged before the step are those of invocations still there. *)
Ltac resolved_after Ht Hres :=
  let r := fresh "r" in
  let Hr := fresh "Hr" in
  let w := fresh "w" in
  let tw := fresh "tw" in
  let Hw := fresh "Hw" in
  let tw' := fresh "tw'" in
  let Hw' := fresh "Hw'" in
  let Hc := fresh "Hc" in
  intros r Hr; destruct (Hres r Hr) as (w & tw & Hw & ->);
  match goal with
  | |- context [ <[_ := mkThread _ ?p]> _ ] =>
      destruct (lookup_goto_call _ _ _ _ _ p Ht Hw) as (tw' & Hw' & Hc)
  end;
  exists w, tw'; split; [exact Hw' | now rewrite Hc].

Lemma step_Inv (i : nat) (s s' : State) :
  Inv s -> step i s = Some s' -> Inv s'.
Proof.
  intros [Hth Hown Hdone Hidle Hres] Hstep. unfold step in Hstep.
  destruct (threads s !! i) as [t|] eqn:Ht; [|discriminate].
  pose proof (Hth i t Ht) as Hi. unfold threadOK in Hi.
  destruct s as [[loc err [d]] m ths res]. destruct t as [cl p].
  unfold isDone, stores in *. simpl in *.
  destruct p; simpl in Hstep, Hi.
  - (* AtDo *)
    injection Hstep as <-. unfold goto. simpl.
    constructor; unfold isDone, stores; simpl; try assumption.
    + destruct d; threads_after Ht Hth Hi.
    + intros j Hm. destruct (Hown j Hm) as (tj & Htj & Hh).
      destruct (decide (j = i)) as [->|Hne].
      * rewrite Ht in Htj. injection Htj as <-. contradiction.
      * exists tj. now rewrite list_lookup_insert_ne by congruence.
    + resolved_after Ht Hres.
  - (* AtLock *)
    destruct m as [o|]; [discriminate|]. injection Hstep as <-. unfold goto. simpl.
    constructor; unfold isDone, stores; simpl; try assumption.
    + threads_after Ht Hth Hi.
    + intros j [= <-]. eexists. split; [apply (lookup_goto_self _ _ _ _ Ht) | exact I].
    + discriminate.
    + resolved_after Ht Hres.
  - (* AtRecheck *)
    injection Hstep as <-. unfold goto. simpl.
    constructor; unfold isDone, stores; simpl; try assumption.
    + destruct d; threads_after Ht Hth Hi.
    + destruct d; owner_after i Ht Hown.
    + resolved_after Ht Hres.
  - (* AtResolve *)
    injection Hstep as <-. unfold goto, counted. simpl.
    destruct Hi as (Hm & Hd & Hr0). subst m d res.
    constructor; unfold isDone, stores; simpl; try assumption; try discriminate.
    + pose proof I as Hi0. threads_after Ht Hth Hi0.
    + owner_after i Ht Hown.
    + intros r [<- | []]. eexists i, _. split; [apply (lookup_goto_self _ _ _ _ Ht)|].
      reflexivity.
  - (* AtStoreLocation *)
    injection Hstep as <-. unfold goto, withCache. simpl.
    destruct Hi as (Hm & Hd & Hr0 & Hr1). subst m d res.
    constructor; unfold isDone, stores; simpl; try assumption; try discriminate.
    + pose proof I as Hi0. threads_after Ht Hth Hi0.
    + owner_after i Ht Hown.
    + resolved_after Ht Hres.
  - (* AtStoreErr *)
    injection Hstep as <-. unfold goto, withCache. simpl.
    destruct Hi as (Hm & Hd & Hr0 & Hr1). subst m d res.
    constructor; unfold isDone, stores; simpl; try assumption; try discriminate.
    + pose proof I as Hi0. threads_after Ht Hth Hi0.
    + owner_after i Ht Hown.
    + resolved_after Ht Hres.
  - (* AtStoreDone *)
    injection Hstep as <-. unfold goto, withCache. simpl.
    destruct Hi as (Hm & Hd & r0 & Hr0 & Hl & He). subst m d res.
    constructor; unfold isDone, stores; simpl; try assumption; try discriminate.
    + pose proof I as Hi0. threads_after Ht Hth Hi0.
    + owner_after i Ht Hown.
    + intros _. eauto.
    + resolved_after Ht Hres.
  - (* AtUnlock *)
    injection Hstep as <-. unfold goto, withMutex. simpl.
    destruct Hi as (Hm & Hd). subst m d.
    constructor; unfold isDone, stores; simpl; try assumption; try discriminate.
    + pose proof I as Hi0. threads_after Ht Hth Hi0.
    + resolved_after Ht Hres.
  - (* AtLoadLocation *)
    destruct cl; injection Hstep as <-; unfold goto; simpl;
      (constructor; unfold isDone, stores; simpl; try assumption;
       [ threads_after Ht Hth Hi
       | intros j Hm; destruct (Hown j Hm) as (tj & Htj & Hh);
         destruct (decide (j = i)) as [->|Hne];
         [ rewrite Ht in Htj; injection Htj as <-; contradiction
         | exists tj; now rewrite list_lookup_insert_ne by congruence ]
       | resolved_after Ht Hres ]).
  - (* AtLoadErr *)
    injection Hstep as <-. unfold goto. simpl.
    destruct Hi as (Hd & Hl & Hcl). destruct cl; [|contradiction]. subst d loc0.
    constructor; unfold isDone, stores; simpl; try assumption.
    + pose proof I as Hi0. threads_after Ht Hth Hi0.
    + intros j Hm. destruct (Hown j Hm) as (tj & Htj & Hh).
      destruct (decide (j = i)) as [->|Hne].
      * rewrite Ht in Htj. injection Htj as <-. contradiction.
      * exists tj. now rewrite list_lookup_insert_ne by congruence.
    + resolved_after Ht Hres.
  - (* Returned *)
    discriminate.
Qed.

Lemma run_Inv (schedule : list nat) (s s' : State) :
  Inv s -> run schedule s = Some s' -> Inv s'.
Proof.
  revert s. induction schedule as [|i schedule IH]; intros s Hinv Hrun; simpl in Hrun.
  - now injection Hrun as <-.
  - destruct (step i s) as [s1|] eqn:Hstep; [|discriminate].
    eapply IH; [|exact Hrun]. eapply step_Inv; eassumption.
Qed.

Lemma workLeft_goto (ths : list Thread) (i : nat) (t : Thread) (p : PC) :
  ths !! i = Some t ->
  (stepsLeft p < stepsLeft (pc t))%nat ->
  (list_sum (map (fun t => stepsLeft (pc t)) (<[i := mkThread (call t) p]> ths))
   < list_sum (map (fun t => stepsLeft (pc t)) ths))%nat.
Proof.
  revert i. induction ths as [|u ths IH]; intros i Hi Hlt; [discriminate|].
  destruct i as [|i]; simpl in *.
  - injection Hi as ->. lia.
  - specialize (IH i Hi Hlt). lia.
Qed.

(** Every step uses up some of the work that is left. *)
Lemma step_workLeft (i : nat) (s s' : State) :
  step i s = Some s' -> (workLeft s' < workLeft s)%nat.
Proof.
  unfold step, workLeft. destruct (threads s !! i) as [t|] eqn:Ht; [|discriminate].
  destruct (pc t) eqn:Hpc; try discriminate;
    try (intros [= <-]; simpl; apply workLeft_goto; [exact Ht | rewrite Hpc; simpl; lia]).
  - intros [= <-]. simpl. apply workLeft_goto; [exact Ht|].
    rewrite Hpc. destruct (isDone s); simpl; lia.
  - destruct (mutex s); [discriminate|]. intros [= <-]. simpl.
    apply workLeft_goto; [exact Ht | rewrite Hpc; simpl; lia].
  - intros [= <-]. simpl. apply workLeft_goto; [exact Ht|].
    rewrite Hpc. destruct (isDone s); simpl; lia.
  - destruct (call t); intros [= <-]; simpl;
      (apply workLeft_goto; [exact Ht | rewrite Hpc; simpl; lia]).
Qed.

Lemma run_workLeft (schedule : list nat) (s s' : State) :
  run schedule s = Some s' -> (length schedule + workLeft s' <= workLeft s)%nat.
Proof.
  revert s. induction schedule as [|i schedule IH]; intros s Hrun; simpl in Hrun.
  - injection Hrun as <-. simpl. lia.
  - destruct (step i s) as [s1|] eqn:Hstep; [|discriminate].
    apply IH in Hrun. apply step_workLeft in Hstep. simpl. lia.
Qed.

Lemma workLeft_init (calls : list Call) : workLeft (init calls) = (10 * length calls)%nat.
Proof.
  unfold workLeft. simpl. induction calls as [|c calls IH]; [reflexivity|].
  simpl in *. rewrite IH. lia.
Qed.

(** A step leaves the invocations and their arguments as they are. *)
Lemma step_calls (i : nat) (s s' : State) :
  step i s = Some s' -> map call (threads s') = map call (threads s).
Proof.
  assert (Hgoto : forall ths t p, ths !! i = Some t ->
             map call (<[i := mkThread (call t) p]> ths) = map call ths).
  { clear. intros ths. revert i. induction ths as [|u ths IH]; intros i t p Hi; [discriminate|].
    destruct i as [|i]; simpl in *.
    - now injection Hi as ->.
    - f_equal. now apply IH. }
  unfold step. destruct (threads s !! i) as [t|] eqn:Ht; [|discriminate].
  destruct (pc t); try discriminate; try (intros [= <-]; simpl; now apply Hgoto).
  - destruct (mutex s); [discriminate|]. intros [= <-]. simpl. now apply Hgoto.
  - destruct (call t); intros [= <-]; simpl; now apply Hgoto.
Qed.

Lemma run_calls (schedule : list nat) (s s' : State) :
  run schedule s = Some s' -> map call (threads s') = map call (threads s).
Proof.
  revert s. induction schedule as [|i schedule IH]; intros s Hrun; simpl in Hrun.
  - now injection Hrun as <-.
  - destruct (step i s) as [s1|] eqn:Hstep; [|discriminate].
    rewrite (IH _ Hrun). now apply (step_calls i).
Qed.

(** While an invocation has not returned, some invocation can move. *)
Lemma stuck_all_returned (s : State) :
  Inv s ->
  (forall i, step i s = None) ->
  forall i t, threads s !! i = Some t -> hasReturned t.
Proof.
  intros [Hth Hown _ _ _] Hstuck i t Ht.
  destruct (mutex s) as [o|] eqn:Hm.
  - exfalso. destruct (Hown o eq_refl) as (u & Hu & Hh).
    specialize (Hstuck o). unfold step in Hstuck. rewrite Hu in Hstuck.
    destruct (pc u); try discriminate; contradiction.
  - unfold hasReturned. destruct (pc t) eqn:Hpc; try exact I; exfalso;
      specialize (Hstuck i); unfold step in Hstuck; rewrite Ht, Hpc in Hstuck;
      try discriminate.
    + rewrite Hm in Hstuck. discriminate.
    + destruct (call t); discriminate.
Qed.

(** C3. Whatever the interleaving of the invocations [calls] on a fresh
    instance, in the state [s] it reaches: at most one resolution was
    evaluated; an invocation that has returned has returned the one pair
    that was resolved, which is the resolution of one of the invocations; an
    invocation that reads the fields of the instance finds [done] set, both
    fields of that pair stored, and no invocation writing them; the
    interleaving is at most ten steps per invocation long; and it can only
    be stuck once every invocation has returned. *)
Theorem concurrent_callers_share_one_resolution (calls : list Call) (schedule : list nat)
    (s : State) :
  run schedule (init calls) = Some s ->
  (runs s <= 1)%nat
  /\ map call (threads s) = calls
  /\ (forall i t ret,
        threads s !! i = Some t -> pc t = Returned ret ->
        exists r, resolved s = [r] /\ ret = returnOf r (call t))
  /\ (forall r, In r (resolved s) -> exists call, In call calls /\ r = resolution call)
  /\ (forall i t,
        threads s !! i = Some t -> reading (pc t) ->
        isDone s = true
        /\ (exists r, resolved s = [r] /\ stores (cache s) r)
        /\ forall j u, threads s !! j = Some u -> ~ resolving (pc u))
  /\ (length schedule + workLeft s <= 10 * length calls)%nat
  /\ ((forall i, step i s = None) ->
      forall i t, threads s !! i = Some t -> hasReturned t).
Proof.
  intros Hrun.
  pose proof (run_Inv _ _ _ (init_Inv calls) Hrun) as Hinv.
  pose proof (run_calls _ _ _ Hrun) as Hcalls.
  assert (Hinit : map call (threads (init calls)) = calls).
  { simpl. rewrite map_map. simpl. apply map_id. }
  rewrite Hinit in Hcalls.
  destruct Hinv as [Hth Hown Hdone Hidle Hres].
  assert (Hruns : (runs s <= 1)%nat).
  { unfold runs. destruct (isDone s) eqn:Hd.
    - destruct (Hdone eq_refl) as (r & -> & _). simpl. lia.
    - destruct (mutex s) as [o|] eqn:Hm.
      + destruct (Hown o eq_refl) as (u & Hu & Hh).
        pose proof (Hth o u Hu) as Hok. unfold threadOK in Hok.
        destruct (pc u); try contradiction; simpl.
        * destruct Hok as (_ & Hnil). rewrite (Hnil Hd). simpl. lia.
        * destruct Hok as (_ & _ & ->). simpl. lia.
        * destruct Hok as (_ & _ & -> & _). simpl. lia.
        * destruct Hok as (_ & _ & -> & _). simpl. lia.
        * destruct Hok as (_ & _ & r & -> & _). simpl. lia.
        * destruct Hok as (_ & Hd'). congruence.
      + rewrite (Hidle eq_refl eq_refl). simpl. lia. }
  split; [exact Hruns|]. split; [exact Hcalls|].
  split; [|split; [|split; [|split]]].
  - intros i t ret Ht Hpc. pose proof (Hth i t Ht) as Hok.
    unfold threadOK in Hok. rewrite Hpc in Hok. destruct Hok as (Hd & ->).
    destruct (Hdone Hd) as (r & Hr & Hl & He). exists r. split; [exact Hr|].
    rewrite Hl, He. now destruct r.
  - intros r Hr. destruct (Hres r Hr) as (w & tw & Hw & ->).
    exists (call tw). split; [|reflexivity].
    rewrite <- Hcalls. apply in_map. apply list_elem_of_In.
    eapply list_elem_of_lookup_2. exact Hw.
  - intros i t Ht Hread. pose proof (Hth i t Ht) as Hok. unfold threadOK in Hok.
    assert (Hd : isDone s = true) by (destruct (pc t); try contradiction; tauto).
    split; [exact Hd|]. split; [exact (Hdone Hd)|].
    intros j u Hu Hres'. pose proof (Hth j u Hu) as Hok'. unfold threadOK in Hok'.
    destruct (pc u); try contradiction; destruct Hok' as (_ & Hd' & _); congruence.
  - pose proof (run_workLeft _ _ _ Hrun) as Hwork. now rewrite workLeft_init in Hwork.
  - now apply stuck_all_returned.
Qed.

End ConcurrentClaims.

(** C3 at three invocations: [c.FunctionLocation] of a function,
    [c.ThisCodeLocation], and [c.FunctionLocation] of 42, interleaved so that
    the second resolves. All three return the second's location, and the one
    resolution is logged. *)
Lemma concurrent_callers_share_one_resolution_witness :
  exists s,
    @Concurrent.run Example.goRuntime Example.schedule (Concurrent.init Example.calls) = Some s
    /\ map Concurrent.pc (Concurrent.threads s)
       = [ Concurrent.Returned
             (Cached.RetFunctionLocation (Some (Spec.locationOf Example.frameA)) None);
           Concurrent.Returned
             (Cached.RetThisCodeLocation (Some (Spec.locationOf Example.frameA)));
           Concurrent.Returned
             (Cached.RetFunctionLocation (Some (Spec.locationOf Example.frameA)) None) ]
    /\ (Concurrent.runs s <= 1)%nat
    /\ forall i t ret,
         Concurrent.threads s !! i = Some t -> Concurrent.pc t = Concurrent.Returned ret ->
         exists r, Concurrent.resolved s = [r] /\ ret = Cached.returnOf r (Concurrent.call t).
Proof.
  eexists. split; [vm_compute; reflexivity|]. split; [reflexivity|].
  match goal with
  | |- (Concurrent.runs ?s <= 1)%nat /\ _ =>
      destruct (@concurrent_callers_share_one_resolution Example.goRuntime
                  Example.calls Example.schedule s) as (Hruns & _ & Hret & _)
  end.
  - vm_compute. reflexivity.
  - split; [exact Hruns | exact Hret].
Defined.

(** * Further properties of the file *)

(** ** Resolving the caller *)

Section CallerFacts.

Context `{GoRuntime}.

(** X1. [ThisCodeLocation(skip)], for a skip count from 0 to [maxInt - 2],
    returns the location of the frame [skip] levels above its caller, and
    the zero location when the stack has no such frame. For the two skip
    counts above [maxInt - 2] the addition of its own two levels wraps
    around, nothing is skipped, and it returns the frame of
    [runtime.Callers] itself. Without an argument it is
    [ThisCodeLocation(0)]. *)
Theorem ThisCodeLocation_reports_frame_at_skip (callers : list runtime.Frame) (skip : Z) :
  0 <= skip <= maxInt ->
  (skip <= maxInt - 2 ->
   forall f, callers !! Z.to_nat skip = Some f ->
             ThisCodeLocation callers [skip] = Spec.locationOf f)
  /\ (skip <= maxInt - 2 ->
      (length callers <= Z.to_nat skip)%nat ->
      ThisCodeLocation callers [skip] = zeroCodeLocation)
  /\ (maxInt - 2 < skip ->
      ThisCodeLocation callers [skip] = Spec.locationOf frCallers)
  /\ ThisCodeLocation callers [] = ThisCodeLocation callers [0].
Proof.
  intros Hskip. split; [|split; [|split]].
  - intros Hin f Hf. rewrite ThisCodeLocation_frame by lia.
    now rewrite (drop_S _ _ _ Hf).
  - intros Hin Hshort. rewrite ThisCodeLocation_frame by lia. now rewrite drop_ge.
  - intros Hwrap. unfold maxInt in Hskip, Hwrap.
    assert (Hcases : skip = 2 ^ 63 - 2 \/ skip = 2 ^ 63 - 1) by lia.
    destruct Hcases as [-> | ->]; reflexivity.
  - reflexivity.
Qed.

Lemma ThisCodeLocation_one (self : runtime.Frame) (callers : list runtime.Frame) :
  ThisCodeLocation (self :: callers) [1]
  = match callers with
    | f :: _ => Spec.locationOf f
    | [] => zeroCodeLocation
    end.
Proof.
  rewrite ThisCodeLocation_frame by (unfold maxInt; lia).
  now destruct callers.
Qed.

Lemma cached_ThisCodeLocation_one (self : runtime.Frame) (callers : list runtime.Frame) :
  Cached.thisCodeLocationFunc1 (self :: callers) 1
  = (Some match callers with
          | f :: _ => Spec.locationOf f
          | [] => zeroCodeLocation
          end, None).
Proof.
  rewrite thisCodeLocationFunc1_frame by (unfold maxInt; lia).
  now destruct callers.
Qed.

(** X2. The option [WithThisCodeLocation()] sets the override to the
    location of the frame that called [WithThisCodeLocation] (the zero
    location when there is none), and so does the option its cached form
    builds on a fresh instance, which then stores that location. *)
Theorem WithThisCodeLocation_reports_its_caller (callers : list runtime.Frame)
    (c : nat) (h h0 : Heap) (o : traceOptSet) :
  sync.done (once (load h c)) = false ->
  let site := match callers with
              | f :: _ => Spec.locationOf f
              | [] => zeroCodeLocation
              end in
  WithThisCodeLocation callers h0 o = (h0, setLocationOverride o (Some site))
  /\ snd (CachedOptions.WithThisCodeLocation callers c h) h0 o
     = (h0, setLocationOverride o (Some site))
  /\ load (fst (CachedOptions.WithThisCodeLocation callers c h)) c
     = mkCached (Some site) None (sync.mkOnce true).
Proof.
  intros Hfresh site. split; [|split].
  - unfold WithThisCodeLocation. now rewrite ThisCodeLocation_one.
  - unfold CachedOptions.WithThisCodeLocation, Cached.ThisCodeLocation.
    rewrite onceDo_fresh by exact Hfresh. rewrite load_insert.
    change (Cached.skipOf [1]) with 1.
    pose proof (cached_ThisCodeLocation_one
               (ownFrame "(*CachedCodeLocation).WithThisCodeLocation" 159) callers) as E.
    rewrite E. reflexivity.
  - unfold CachedOptions.WithThisCodeLocation, Cached.ThisCodeLocation.
    rewrite onceDo_fresh by exact Hfresh.
    change (Cached.skipOf [1]) with 1.
    pose proof (cached_ThisCodeLocation_one
               (ownFrame "(*CachedCodeLocation).WithThisCodeLocation" 159) callers) as E.
    rewrite E. simpl. now rewrite load_insert.
Qed.

(** X3. On an instance that is already resolved, [c.WithThisCodeLocation()]
    does not look at its call site: the option it builds sets the override
    to the stored location, and leaves the instance as it is. When the stored
    location is [nil] (the first resolution failed), the option clears an
    override set before it. *)
Theorem cached_WithThisCodeLocation_reuses_stored (callers : list runtime.Frame)
    (c : nat) (h h0 : Heap) (o : traceOptSet) :
  sync.done (once (load h c)) = true ->
  fst (CachedOptions.WithThisCodeLocation callers c h) = h
  /\ snd (CachedOptions.WithThisCodeLocation callers c h) h0 o
     = (h0, setLocationOverride o (Location (load h c)))
  /\ (Location (load h c) = None ->
      LocationOverride (snd (snd (CachedOptions.WithThisCodeLocation callers c h) h0 o))
      = None).
Proof.
  intros Hdone.
  unfold CachedOptions.WithThisCodeLocation, Cached.ThisCodeLocation.
  rewrite onceDo_done by exact Hdone. simpl. split; [reflexivity|].
  split; [reflexivity|]. intros Hnil. exact Hnil.
Qed.

End CallerFacts.

(** X1 at a two-frame stack: the skip counts 1, 2 and [maxInt]. *)
Lemma ThisCodeLocation_reports_frame_at_skip_witness :
  @ThisCodeLocation Example.goRuntime [Example.frameA; Example.frameB] [1]
  = Spec.locationOf Example.frameB
  /\ @ThisCodeLocation Example.goRuntime [Example.frameA; Example.frameB] [2]
     = zeroCodeLocation
  /\ Function (@ThisCodeLocation Example.goRuntime [Example.frameA; Example.frameB] [maxInt])
     = "runtime.Callers".
Proof.
  split; [|split].
  - apply (@ThisCodeLocation_reports_frame_at_skip Example.goRuntime
             [Example.frameA; Example.frameB] 1);
      [unfold maxInt; lia | unfold maxInt; lia | reflexivity].
  - apply (@ThisCodeLocation_reports_frame_at_skip Example.goRuntime
             [Example.frameA; Example.frameB] 2);
      [unfold maxInt; lia | unfold maxInt; lia | simpl; lia].
  - destruct (@ThisCodeLocation_reports_frame_at_skip Example.goRuntime
                [Example.frameA; Example.frameB] maxInt) as (_ & _ & Hwrap & _);
      [unfold maxInt; lia|].
    rewrite Hwrap by lia. reflexivity.
Defined.

(** X2 at a call from frame A, on the empty heap. *)
Lemma WithThisCodeLocation_reports_its_caller_witness :
  @WithThisCodeLocation Example.goRuntime [Example.frameA] ∅ zeroTraceOptSet
  = (∅, setLocationOverride zeroTraceOptSet (Some (Spec.locationOf Example.frameA)))
  /\ snd (@CachedOptions.WithThisCodeLocation Example.goRuntime [Example.frameA] 0%nat ∅)
       ∅ zeroTraceOptSet
     = (∅, setLocationOverride zeroTraceOptSet (Some (Spec.locationOf Example.frameA))).
Proof.
  assert (Hfresh : sync.done (once (load ∅ 0%nat)) = false) by reflexivity.
  destruct (@WithThisCodeLocation_reports_its_caller Example.goRuntime
              [Example.frameA] 0%nat ∅ ∅ zeroTraceOptSet Hfresh) as (H1 & H2 & _).
  split; [exact H1 | exact H2].
Defined.

(** X3 at an instance whose first use failed: the option built afterwards
    erases the override of the settings. *)
Lemma cached_WithThisCodeLocation_reuses_stored_witness :
  LocationOverride Example.trimPkg = Some Example.inPkg
  /\ LocationOverride
       (snd (snd (@CachedOptions.WithThisCodeLocation Example.goRuntime [Example.frameA]
                    0%nat MoreExamples.failedOnce) ∅ Example.trimPkg))
     = None.
Proof.
  split; [reflexivity|].
  apply (@cached_WithThisCodeLocation_reuses_stored Example.goRuntime); reflexivity.
Defined.

(** ** Composing options *)

Section CompositionFacts.


Lemma applyOptions_snoc (pre : list TraceOption) (o : TraceOption) (h : Heap)
    (optSet : traceOptSet) :
  (pre = [] -> SuppressCLM optSet = false) ->
  applyOptions (pre ++ [o]) h optSet
  = if SuppressCLM (snd (applyOptions pre h optSet)) then applyOptions pre h optSet
    else o (fst (applyOptions pre h optSet)) (snd (applyOptions pre h optSet)).
Proof.
  revert h optSet. induction pre as [|p pre IH]; intros h optSet Hstart.
  - simpl. rewrite (Hstart eq_refl). destruct (o h optSet) as [h' optSet'].
    now destruct (SuppressCLM optSet').
  - simpl. destruct (p h optSet) as [h1 optSet1].
    destruct (SuppressCLM optSet1) eqn:E1.
    + simpl. now rewrite E1.
    + apply IH. intros _. exact E1.
Qed.

(** X4. One more option at the end of a sequence: [resolveCLMTraceOptions]
    applies it to what the sequence before it resolves to, unless that is
    suppressed, in which case it is not run at all. So, short of a
    suppression, the last [WithCodeLocation], [WithIgnoredPrefix] or
    [WithPathPrefix] of a sequence decides the field it sets. *)
Theorem resolveCLMTraceOptions_last_option (pre : list TraceOption) (o : TraceOption)
    (h : Heap) :
  let before := resolveCLMTraceOptions pre h in
  (SuppressCLM (snd before) = true -> resolveCLMTraceOptions (pre ++ [o]) h = before)
  /\ (SuppressCLM (snd before) = false ->
      resolveCLMTraceOptions (pre ++ [o]) h = o (fst before) (snd before))
  /\ (SuppressCLM (snd before) = false ->
      forall loc prefixes,
        LocationOverride (snd (resolveCLMTraceOptions (pre ++ [WithCodeLocation loc]) h)) = loc
        /\ IgnoredPrefixes (snd (resolveCLMTraceOptions (pre ++ [WithIgnoredPrefix prefixes]) h))
           = prefixes
        /\ PathPrefixes (snd (resolveCLMTraceOptions (pre ++ [WithPathPrefix prefixes]) h))
           = prefixes).
Proof.
  intros before. unfold resolveCLMTraceOptions in *.
  assert (Hsnoc : forall o', applyOptions (pre ++ [o']) h zeroTraceOptSet
                  = if SuppressCLM (snd before) then before
                    else o' (fst before) (snd before)).
  { intros o'. now apply applyOptions_snoc. }
  split; [|split].
  - intros Hs. now rewrite Hsnoc, Hs.
  - intros Hs. now rewrite Hsnoc, Hs.
  - intros Hs loc prefixes. rewrite !Hsnoc, Hs. now repeat split.
Qed.

(** X5. [withPreparedOptions] replays prepared settings: applied to fresh
    settings it yields exactly the prepared ones, so resolving the single
    option [withPreparedOptions(n)] gives [n] back; with a [nil] pointer it
    changes nothing. *)
Theorem withPreparedOptions_replays (n o : traceOptSet) (h : Heap) :
  resolveCLMTraceOptions [withPreparedOptions (Some n)] h = (h, n)
  /\ withPreparedOptions None h o = (h, o)
  /\ forall options h',
       resolveCLMTraceOptions
         [withPreparedOptions (Some (snd (resolveCLMTraceOptions options h')))] h
       = (h, snd (resolveCLMTraceOptions options h')).
Proof.
  assert (Hreplay : forall m, resolveCLMTraceOptions [withPreparedOptions (Some m)] h = (h, m)).
  { intros [loc sup dem ign pth]. unfold resolveCLMTraceOptions. simpl.
    destruct loc, sup, ign, pth; reflexivity. }
  split; [apply Hreplay|]. split; [reflexivity|]. intros options h'. apply Hreplay.
Qed.

(** X6. [withPreparedOptions(n)] merges: the location and each prefix list
    of the settings it is applied to are replaced by those of [n] where [n]
    has one, and are left exactly as they were where [n] has none, so that
    none is ever erased; the two flags are always those of [n], so that
    prepared settings without suppression clear a suppression. Applying it a
    second time changes nothing. *)
Theorem withPreparedOptions_merges (n o : traceOptSet) (h : Heap) :
  let merged := snd (withPreparedOptions (Some n) h o) in
  (LocationOverride n = None -> LocationOverride merged = LocationOverride o)
  /\ (IgnoredPrefixes n = None -> IgnoredPrefixes merged = IgnoredPrefixes o)
  /\ (PathPrefixes n = None -> PathPrefixes merged = PathPrefixes o)
  /\ (LocationOverride o <> None -> LocationOverride merged <> None)
  /\ (IgnoredPrefixes o <> None -> IgnoredPrefixes merged <> None)
  /\ (PathPrefixes o <> None -> PathPrefixes merged <> None)
  /\ (LocationOverride n <> None -> LocationOverride merged = LocationOverride n)
  /\ (IgnoredPrefixes n <> None -> IgnoredPrefixes merged = IgnoredPrefixes n)
  /\ (PathPrefixes n <> None -> PathPrefixes merged = PathPrefixes n)
  /\ SuppressCLM merged = SuppressCLM n
  /\ DemandCLM merged = DemandCLM n
  /\ fst (withPreparedOptions (Some n) h o) = h
  /\ withPreparedOptions (Some n) h merged = (h, merged).
Proof.
  destruct n as [loc sup dem ign pth], o as [loc' sup' dem' ign' pth'].
  simpl. destruct loc, ign, pth; simpl; repeat split; congruence.
Qed.

End CompositionFacts.

(** X4 at the sequences of the examples: an option after a suppression is
    not run, an option after an unsuppressed sequence decides its field. *)
Lemma resolveCLMTraceOptions_last_option_witness :
  snd (resolveCLMTraceOptions (Example.suppressThenMore ++ [WithCodeLocation None]) ∅)
  = snd (resolveCLMTraceOptions Example.suppressThenMore ∅)
  /\ IgnoredPrefixes
       (snd (resolveCLMTraceOptions
               ((WithIgnoredPrefix (Some ["a/"]) :: Example.neverSuppressed)
                  ++ [WithIgnoredPrefix (Some ["b/"])]) ∅))
     = Some ["b/"].
Proof.
  split.
  - destruct (resolveCLMTraceOptions_last_option Example.suppressThenMore
                (WithCodeLocation None) ∅) as (Hsup & _).
    now rewrite Hsup.
  - destruct (resolveCLMTraceOptions_last_option
                (WithIgnoredPrefix (Some ["a/"]) :: Example.neverSuppressed)
                (WithIgnoredPrefix (Some ["b/"])) ∅) as (_ & _ & Hlast).
    apply (Hlast eq_refl None (Some ["b/"])).
Defined.

(** X6 at settings with a location and a suppression, merged with prepared
    settings that have neither: the location is kept as it was, the
    suppression is cleared. *)
Lemma withPreparedOptions_merges_witness :
  LocationOverride (snd (withPreparedOptions (Some zeroTraceOptSet) ∅ Example.suppressed))
  = Some Example.inPkg
  /\ SuppressCLM (snd (withPreparedOptions (Some zeroTraceOptSet) ∅ Example.suppressed))
     = false
  /\ PathPrefixes (snd (withPreparedOptions (Some Example.trimPkg) ∅ Example.suppressed))
     = Some ["pkg/"].
Proof.
  destruct (withPreparedOptions_merges zeroTraceOptSet Example.suppressed ∅)
    as (Hkeep & _ & _ & _ & _ & _ & _ & _ & _ & Hsup & _).
  destruct (withPreparedOptions_merges Example.trimPkg Example.suppressed ∅)
    as (_ & _ & _ & _ & _ & _ & _ & _ & Hreplace & _).
  split; [exact (Hkeep eq_refl)|]. split; [exact Hsup|].
  apply Hreplace. discriminate.
Defined.

(** ** The report: edges of the trimming and of the stack walk *)

Section ReportEdges.

Context `{GoRuntime}.

Lemma firstIndex_None_iff (s sub : string) :
  strings.firstIndex s sub = None <-> ~ strings.Contains s sub.
Proof.
  split.
  - intros Hnone Hc. apply Contains_position in Hc as (n & Hn & Hp).
    rewrite (firstIndex_None _ _ Hnone n Hn) in Hp. discriminate.
  - intros Hno. destruct (strings.firstIndex s sub) as [n|] eqn:E; [|reflexivity].
    exfalso. apply Hno. apply firstIndex_Some in E as (Hn & Hp & _).
    apply Contains_position. eauto.
Qed.

Lemma Contains_suffix (cut s sub : string) :
  strings.Contains s sub -> strings.Contains (cut +:+ s) sub.
Proof.
  intros (a & b & ->). exists (cut +:+ a), b. now rewrite append_assoc.
Qed.

Lemma firstIndex_at_prefix (s sub : string) :
  strings.HasPrefix s sub = true -> strings.firstIndex s sub = Some 0%nat.
Proof. intros Hp. destruct s; simpl; now rewrite Hp. Qed.

(** The loop of the trimming, by what [strings.Index] finds. *)
Lemma trimPath_cons (filePath p : string) (rest : list string) :
  trimPath filePath (p :: rest)
  = match strings.firstIndex filePath p with
    | Some n => strings.bytesFrom n filePath
    | None => trimPath filePath rest
    end.
Proof.
  simpl. unfold strings.Index, strings.sliceFrom.
  destruct (strings.firstIndex filePath p) as [n|]; [|reflexivity].
  unfold strings.toInt. rewrite Nat2Z.id.
  now replace (0 <=? Z.of_nat n) with true by (symmetry; apply Z.leb_le; lia).
Qed.

Lemma trimPath_suffix (filePath : string) (pathPrefixes : list string) :
  exists cut, filePath = cut +:+ trimPath filePath pathPrefixes.
Proof.
  induction pathPrefixes as [|p rest IH].
  - now exists "".
  - rewrite trimPath_cons. destruct (strings.firstIndex filePath p) as [n|] eqn:E.
    + exists (strings.bytesTo n filePath). symmetry. apply bytesTo_bytesFrom.
    + exact IH.
Qed.

(** X7. Whatever the list of path prefixes, the path [reportCodeLevelMetrics]
    reports is a suffix of the resolved path, and trimming it again with the
    same list changes nothing. *)
Theorem trimPath_suffix_idempotent (filePath : string) (pathPrefixes : list string) :
  (exists cut, filePath = cut +:+ trimPath filePath pathPrefixes)
  /\ (String.length (trimPath filePath pathPrefixes) <= String.length filePath)%nat
  /\ trimPath (trimPath filePath pathPrefixes) pathPrefixes = trimPath filePath pathPrefixes.
Proof.
  split; [apply trimPath_suffix|]. split.
  - destruct (trimPath_suffix filePath pathPrefixes) as [cut Hcut].
    rewrite Hcut at 2. rewrite length_append. lia.
  - revert filePath. induction pathPrefixes as [|p rest IH]; intros filePath; [reflexivity|].
    rewrite !trimPath_cons.
    destruct (strings.firstIndex filePath p) as [n|] eqn:E.
    + apply firstIndex_Some in E as (_ & Hp & _).
      now rewrite (firstIndex_at_prefix _ _ Hp).
    + assert (Hnone : strings.firstIndex (trimPath filePath rest) p = None).
      { apply firstIndex_None_iff. intros Hc.
        destruct (trimPath_suffix filePath rest) as [cut Hcut].
        apply (Contains_suffix cut) in Hc. rewrite <- Hcut in Hc.
        now apply firstIndex_None_iff in E. }
      rewrite Hnone. apply IH.
Qed.

(** X8. An empty string among the path prefixes is found in every path, at
    its start: when no prefix before it is found, the path is reported
    unchanged and the prefixes after it are never tried. *)
Theorem trimPath_empty_prefix (filePath : string) (before after : list string) :
  (forall q, In q before -> ~ strings.Contains filePath q) ->
  trimPath filePath (before ++ "" :: after) = filePath.
Proof.
  intros Hbefore.
  destruct (trimPath_first filePath "" before after Hbefore) as (cut & Hcut & _ & Hmin).
  - exists "", filePath. reflexivity.
  - assert (Hlen : (String.length cut <= String.length "")%nat).
    { apply Hmin. exists filePath. reflexivity. }
    destruct cut; [|simpl in Hlen; lia]. now rewrite Hcut at 2.
Qed.

(** X9. A stack deeper than the ten frames the walk reads: when the ten
    innermost frames are all ignored, the report takes the tenth, whatever
    the frames beyond it are. *)
Theorem walkStack_stops_at_ten (window rest : list runtime.Frame) (tenth : runtime.Frame)
    (tOpts : traceOptSet) (run : Config.CodeLevelMetrics) :
  length window = 10%nat ->
  last window = Some tenth ->
  (forall g, In g window ->
             Spec.Ignored (elems (effectiveIgnoredPrefixes tOpts run)) g) ->
  walkStack (window ++ rest) tOpts run = Spec.locationOf tenth.
Proof.
  intros Hlen Hlast Hall.
  rewrite walkStack_unfold by (destruct window; [discriminate Hlen | discriminate]).
  rewrite take_app_length' by (symmetry; exact Hlen).
  f_equal. now apply skipIgnoredFrames_all.
Qed.

(** X10. An ignore-list that contains the empty string ignores every frame,
    so the walk ends on the outermost frame it reads; an ignore-list that is
    empty but not [nil] ignores none, so the walk takes the innermost frame. *)
Theorem walkStack_degenerate_lists (callers : list runtime.Frame) (tOpts : traceOptSet)
    (run : Config.CodeLevelMetrics) :
  (forall outer,
      In "" (elems (effectiveIgnoredPrefixes tOpts run)) ->
      last (take 10 callers) = Some outer ->
      walkStack callers tOpts run = Spec.locationOf outer)
  /\ (forall inner rest,
        IgnoredPrefixes tOpts = Some [] ->
        callers = inner :: rest ->
        walkStack callers tOpts run = Spec.locationOf inner).
Proof.
  split.
  - intros outer Hempty Hlast.
    rewrite walkStack_unfold by (destruct callers; [discriminate Hlast | discriminate]).
    f_equal. apply skipIgnoredFrames_all; [|exact Hlast].
    intros g _. exists "". split; [exact Hempty|]. now exists (runtime.Function g).
  - intros inner rest Hnone ->.
    rewrite walkStack_unfold by discriminate.
    unfold effectiveIgnoredPrefixes. rewrite Hnone. reflexivity.
Qed.

Lemma trimPath_empty_path (pathPrefixes : list string) : trimPath "" pathPrefixes = "".
Proof.
  destruct (trimPath_suffix "" pathPrefixes) as [cut Hcut].
  destruct cut; [|discriminate]. now rewrite Hcut at 2.
Qed.

(** X11. Without an override and without a frame to read, the report still
    makes its four calls, with the zero location: line 0 and three empty
    strings, whatever the prefix lists are. *)
Theorem report_of_empty_stack (tOpts : traceOptSet) (run : Config.CodeLevelMetrics) :
  LocationOverride tOpts = None ->
  reportCodeLevelMetrics [] tOpts run
  = [ (AttributeCodeLineno, "", Some 0);
      (AttributeCodeNamespace, "", None);
      (AttributeCodeFilepath, "", None);
      (AttributeCodeFunction, "", None) ].
Proof.
  intros Hnone. unfold reportCodeLevelMetrics, resolveLocation. rewrite Hnone.
  change (walkStack [] tOpts run) with zeroCodeLocation. simpl FilePath.
  now rewrite trimPath_empty_path.
Qed.

(** X12. With an override, the report depends neither on the call stack nor
    on any ignore-list, of the settings or of the configuration. *)
Theorem report_with_override_ignores_stack (callers callers' : list runtime.Frame)
    (tOpts : traceOptSet) (ignored : slice string) (run run' : Config.CodeLevelMetrics)
    (loc : CodeLocation) :
  LocationOverride tOpts = Some loc ->
  Config.PathPrefixes run' = Config.PathPrefixes run ->
  Config.PathPrefix run' = Config.PathPrefix run ->
  reportCodeLevelMetrics callers' (setIgnoredPrefixes tOpts ignored) run'
  = reportCodeLevelMetrics callers tOpts run.
Proof.
  intros Hloc Hpp Hp. unfold reportCodeLevelMetrics, resolveLocation, effectivePathPrefixes.
  simpl. now rewrite Hloc, Hpp, Hp.
Qed.

(** X13. The attributes [removeCodeLevelMetrics] removes are those a report
    sets, in the same order. *)
Theorem remove_matches_report (callers : list runtime.Frame) (tOpts : traceOptSet)
    (run : Config.CodeLevelMetrics) :
  map attrName (reportCodeLevelMetrics callers tOpts run) = removeCodeLevelMetrics.
Proof.
  unfold reportCodeLevelMetrics. now destruct (splitFunction _).
Qed.

End ReportEdges.

(** X8 at the list ["vendor/"; ""; "pkg/"]: the prefix "pkg/" is never tried. *)
Lemma trimPath_empty_prefix_witness :
  trimPath "/home/user/project/src/pkg/file.go" (["vendor/"] ++ "" :: ["pkg/"])
  = "/home/user/project/src/pkg/file.go".
Proof.
  apply trimPath_empty_prefix. intros q [<- | []] Hc.
  apply Contains_position in Hc as (n & Hn & Hp).
  exact (eq_true_false_abs _ Hp
           (firstIndex_None "/home/user/project/src/pkg/file.go" "vendor/" eq_refl n Hn)).
Defined.

(** X9 at ten frames of the agent above which a frame of the application
    calls: the tenth agent frame is reported. *)
Lemma walkStack_stops_at_ten_witness :
  @walkStack Example.goRuntime MoreExamples.deepStack Example.ignoreAgent Example.noConfig
  = Spec.locationOf (MoreExamples.agentFrame 10).
Proof.
  apply (@walkStack_stops_at_ten Example.goRuntime MoreExamples.tenAgentFrames
           [Example.frameA] (MoreExamples.agentFrame 10)).
  - reflexivity.
  - reflexivity.
  - intros g Hg. exists "agent-prefix". split; [now left|]. exists "/x.F".
    unfold MoreExamples.tenAgentFrames in Hg. simpl in Hg.
    repeat (destruct Hg as [<- | Hg]; [reflexivity|]). contradiction.
Defined.

(** X10 at the stack [A; B; C]: with the empty string in the ignore-list the
    outermost frame C is reported, with the empty ignore-list the innermost
    frame A. *)
Lemma walkStack_degenerate_lists_witness :
  @walkStack Example.goRuntime [Example.frameA; Example.frameB; Example.frameC]
    MoreExamples.ignoreAll Example.noConfig = Spec.locationOf Example.frameC
  /\ @walkStack Example.goRuntime [Example.frameA; Example.frameB; Example.frameC]
       MoreExamples.ignoreNone Example.noConfig = Spec.locationOf Example.frameA.
Proof.
  split.
  - apply (proj1 (@walkStack_degenerate_lists Example.goRuntime
                    [Example.frameA; Example.frameB; Example.frameC]
                    MoreExamples.ignoreAll Example.noConfig));
      [right; now left | reflexivity].
  - apply (proj2 (@walkStack_degenerate_lists Example.goRuntime
                    [Example.frameA; Example.frameB; Example.frameC]
                    MoreExamples.ignoreNone Example.noConfig)
             Example.frameA [Example.frameB; Example.frameC]); reflexivity.
Defined.

(** X11 at settings that only ignore the agent. *)
Lemma report_of_empty_stack_witness :
  @reportCodeLevelMetrics Example.goRuntime [] Example.ignoreAgent MoreExamples.ownPrefixConfig
  = [ (AttributeCodeLineno, "", Some 0);
      (AttributeCodeNamespace, "", None);
      (AttributeCodeFilepath, "", None);
      (AttributeCodeFunction, "", None) ].
Proof.
  apply (@report_of_empty_stack Example.goRuntime). reflexivity.
Defined.

(** X12 at an override, reported from two different stacks under two
    different ignore-lists. *)
Lemma report_with_override_ignores_stack_witness :
  @reportCodeLevelMetrics Example.goRuntime MoreExamples.deepStack
    (setIgnoredPrefixes Example.trimPkg (Some [""])) MoreExamples.ownPrefixConfig
  = @reportCodeLevelMetrics Example.goRuntime [] Example.trimPkg Example.noConfig.
Proof.
  apply (@report_with_override_ignores_stack Example.goRuntime) with (loc := Example.inPkg);
    reflexivity.
Defined.

(** ** The ignore-list in force, and the cached options *)

Section DefaultsAndCache.

Context `{GoRuntime}.

Lemma StartsWith_agent_root (fn : string) :
  Spec.StartsWith (pkgPath +:+ "." +:+ fn) defaultAgentProjectRoot.
Proof. exists ("v3/newrelic." +:+ fn). reflexivity. Qed.

(** X14. When the settings carry no ignore-list, the list in force is the
    configured list followed by the configured single prefix, if there is
    one; the agent's own root is the list only when nothing at all is
    configured. In that case every function of this package is ignored; once
    a prefix is configured, the root is no longer in force unless it is
    configured too. *)
Theorem effectiveIgnoredPrefixes_defaults (tOpts : traceOptSet)
    (run : Config.CodeLevelMetrics) :
  IgnoredPrefixes tOpts = None ->
  (Config.IgnoredPrefixes run = None -> Config.IgnoredPrefix run = "" ->
   elems (effectiveIgnoredPrefixes tOpts run) = [defaultAgentProjectRoot]
   /\ forall fn line,
        Spec.Ignored (elems (effectiveIgnoredPrefixes tOpts run)) (ownFrame fn line))
  /\ (Config.IgnoredPrefix run <> "" ->
      elems (effectiveIgnoredPrefixes tOpts run)
      = elems (Config.IgnoredPrefixes run) ++ [Config.IgnoredPrefix run])
  /\ (forall l, Config.IgnoredPrefixes run = Some l -> Config.IgnoredPrefix run = "" ->
        elems (effectiveIgnoredPrefixes tOpts run) = l).
Proof.
  intros Hnone. unfold effectiveIgnoredPrefixes. rewrite Hnone. split; [|split].
  - intros Hl Hp. rewrite Hl, Hp. simpl. split; [reflexivity|].
    intros fn line. exists defaultAgentProjectRoot. split; [now left|].
    apply StartsWith_agent_root.
  - intros Hp. apply String.eqb_neq in Hp. rewrite Hp. reflexivity.
  - intros l Hl Hp. rewrite Hl, Hp. reflexivity.
Qed.

(** X15. [FunctionLocation] returns either a location or an error, never both
    and never neither; and so does a cache instance store, once it has been
    used, exactly one of a location and an error. *)
Theorem exactly_one_of_location_and_error (function : Value) (first : Cached.Call)
    (later : list Cached.Call) (c : nat) (h : Heap) :
  sync.done (once (load h c)) = false ->
  (fst (FunctionLocation function) = None <-> snd (FunctionLocation function) <> None)
  /\ let cc := load (fst (Cached.invokeAll (first :: later) c h)) c in
     (Location cc = None <-> Err cc <> None).
Proof.
  intros Hfresh.
  assert (Hone : forall v, fst (FunctionLocation v) = None <-> snd (FunctionLocation v) <> None).
  { intros v. unfold FunctionLocation. destruct v; simpl; try (split; [discriminate | reflexivity]).
    destruct (FuncForPC codePtr); simpl; split; try discriminate; try reflexivity.
    intros Habs. now contradiction Habs. }
  split; [apply Hone|].
  simpl. rewrite invoke_fresh by exact Hfresh.
  rewrite invokeAll_done by now rewrite load_insert.
  cbn [fst]. rewrite load_insert. cbn [Location Err].
  destruct first; simpl; [apply Hone|].
  split; [discriminate | intros Habs; now contradiction Habs].
Qed.

Lemma cached_FunctionLocation_fresh (c : nat) (function : Value) (h : Heap) :
  sync.done (once (load h c)) = false ->
  Cached.FunctionLocation c function h
  = (<[c := mkCached (fst (FunctionLocation function)) (snd (FunctionLocation function))
             (sync.mkOnce true)]> h,
     (fst (FunctionLocation function), snd (FunctionLocation function))).
Proof.
  intros Hfresh. unfold Cached.FunctionLocation, Cached.functionLocationFunc1.
  rewrite onceDo_fresh by exact Hfresh. rewrite load_insert.
  now destruct (FunctionLocation function).
Qed.

Lemma cached_FunctionLocation_done (c : nat) (function : Value) (h : Heap) :
  sync.done (once (load h c)) = true ->
  Cached.FunctionLocation c function h = (h, (Location (load h c), Err (load h c))).
Proof.
  intros Hdone. unfold Cached.FunctionLocation. now rewrite onceDo_done.
Qed.

(** X16. On a fresh instance the cached [WithFunctionLocation] changes the
    settings as the stand-alone option does. From then on it resolves
    nothing: applied again, with any function, it leaves the instance as it
    is and changes the settings as the stand-alone option of the first
    function does. *)
Theorem cached_WithFunctionLocation_resolves_once (c : nat) (function function' : Value)
    (h : Heap) (o o' : traceOptSet) :
  sync.done (once (load h c)) = false ->
  let h1 := fst (CachedOptions.WithFunctionLocation c function h o) in
  snd (CachedOptions.WithFunctionLocation c function h o)
  = snd (WithFunctionLocation function h o)
  /\ CachedOptions.WithFunctionLocation c function' h1 o'
     = (h1, snd (WithFunctionLocation function h1 o')).
Proof.
  intros Hfresh.
  unfold CachedOptions.WithFunctionLocation, WithFunctionLocation.
  rewrite cached_FunctionLocation_fresh by exact Hfresh.
  destruct (FunctionLocation function) as [loc err]. cbn [fst snd].
  assert (Hh1 : forall s s' : traceOptSet,
             fst (match err with
                  | Some _ => (<[c := mkCached loc err (sync.mkOnce true)]> h, s)
                  | None => (<[c := mkCached loc err (sync.mkOnce true)]> h, s')
                  end) = <[c := mkCached loc err (sync.mkOnce true)]> h)
    by (intros; now destruct err).
  rewrite Hh1. split; [now destruct err|].
  rewrite cached_FunctionLocation_done by now rewrite load_insert.
  rewrite load_insert. cbn [Location Err]. now destruct err.
Qed.

(** X17. A failed first resolution is final: after [c.FunctionLocation] has
    returned an error on a fresh instance, the cached [WithFunctionLocation]
    and [WithDefaultFunctionLocation] change neither the settings nor the
    instance, whatever function they are given. *)
Theorem cached_error_is_final (c : nat) (bad function : Value) (e : error)
    (h : Heap) (o : traceOptSet) :
  sync.done (once (load h c)) = false ->
  snd (FunctionLocation bad) = Some e ->
  let h1 := fst (Cached.FunctionLocation c bad h) in
  CachedOptions.WithFunctionLocation c function h1 o = (h1, o)
  /\ CachedOptions.WithDefaultFunctionLocation c function h1 o = (h1, o)
  /\ Cached.FunctionLocation c function h1 = (h1, (fst (FunctionLocation bad), Some e)).
Proof.
  intros Hfresh Hbad.
  unfold CachedOptions.WithFunctionLocation, CachedOptions.WithDefaultFunctionLocation.
  rewrite (cached_FunctionLocation_fresh c bad h Hfresh). cbn [fst].
  rewrite cached_FunctionLocation_done by now rewrite load_insert.
  rewrite load_insert. cbn [Location Err]. rewrite Hbad.
  split; [reflexivity|]. split; [|reflexivity].
  now destruct (LocationOverride o).
Qed.

End DefaultsAndCache.

(** X14 at no configuration, and at a configuration with a list and a single
    prefix of its own. *)
Lemma effectiveIgnoredPrefixes_defaults_witness :
  elems (effectiveIgnoredPrefixes zeroTraceOptSet Example.noConfig)
  = ["github.com/newrelic/go-agent/"]
  /\ elems (effectiveIgnoredPrefixes zeroTraceOptSet MoreExamples.ownPrefixConfig)
     = ["mycompany/"; "legacy/"].
Proof.
  destruct (@effectiveIgnoredPrefixes_defaults Example.goRuntime zeroTraceOptSet
              Example.noConfig eq_refl) as (Hroot & _).
  destruct (@effectiveIgnoredPrefixes_defaults Example.goRuntime zeroTraceOptSet
              MoreExamples.ownPrefixConfig eq_refl) as (_ & Hown & _).
  split.
  - exact (proj1 (Hroot eq_refl eq_refl)).
  - apply Hown. discriminate.
Defined.

(** X15 at an instance used first with 42, then with a function. *)
Lemma exactly_one_of_location_and_error_witness :
  let cc := load (fst (@Cached.invokeAll Example.goRuntime
                         [Cached.CallFunctionLocation (VInt 42);
                          Cached.CallFunctionLocation Example.handler] 0%nat ∅)) 0%nat in
  Location cc = None <-> Err cc <> None.
Proof.
  assert (Hfresh : sync.done (once (load ∅ 0%nat)) = false) by reflexivity.
  exact (proj2 (@exactly_one_of_location_and_error Example.goRuntime VNil
                  (Cached.CallFunctionLocation (VInt 42))
                  [Cached.CallFunctionLocation Example.handler] 0%nat ∅ Hfresh)).
Defined.

(** X16 at the known function, then at 42 on the same instance. *)
Lemma cached_WithFunctionLocation_resolves_once_witness :
  LocationOverride
    (snd (@CachedOptions.WithFunctionLocation Example.goRuntime 0%nat (VInt 42)
            (fst (@CachedOptions.WithFunctionLocation Example.goRuntime 0%nat Example.handler
                    ∅ zeroTraceOptSet))
            zeroTraceOptSet))
  = Some (mkCodeLocation 12 "main.handler" "/app/main.go").
Proof.
  assert (Hfresh : sync.done (once (load ∅ 0%nat)) = false) by reflexivity.
  destruct (@cached_WithFunctionLocation_resolves_once Example.goRuntime 0%nat
              Example.handler (VInt 42) ∅ zeroTraceOptSet zeroTraceOptSet Hfresh)
    as (_ & Hagain).
  rewrite Hagain. reflexivity.
Defined.

(** X17 at an instance first used with 42 and then given a known function. *)
Lemma cached_error_is_final_witness :
  @CachedOptions.WithFunctionLocation Example.goRuntime 0%nat Example.handler
    MoreExamples.failedOnce zeroTraceOptSet
  = (MoreExamples.failedOnce, zeroTraceOptSet).
Proof.
  assert (Hfresh : sync.done (once (load ∅ 0%nat)) = false) by reflexivity.
  exact (proj1 (@cached_error_is_final Example.goRuntime 0%nat (VInt 42) Example.handler
                  _ ∅ zeroTraceOptSet Hfresh eq_refl)).
Defined.

(** ** Options that do not touch the flags *)

Section FlagFacts.

Context `{GoRuntime}.

Lemma applyOptions_leavesFlags (options : list TraceOption) (h : Heap) (optSet : traceOptSet) :
  Forall leavesFlags options ->
  SuppressCLM optSet = false ->
  applyOptions options h optSet = Spec.foldOptions options h optSet
  /\ SuppressCLM (snd (applyOptions options h optSet)) = false
  /\ DemandCLM (snd (applyOptions options h optSet)) = DemandCLM optSet.
Proof.
  intros Hall. revert h optSet.
  induction Hall as [|o options Ho _ IH]; intros h optSet Hs; [now repeat split|].
  destruct (Ho h optSet) as [Hsup Hdem].
  unfold Spec.foldOptions. simpl. destruct (o h optSet) as [h' optSet'].
  simpl in Hsup, Hdem. rewrite Hs in Hsup. rewrite Hsup.
  destruct (IH h' optSet' Hsup) as (Hfold & Hsup' & Hdem').
  rewrite Hfold, <- Hdem. rewrite Hfold in Hsup', Hdem'. now repeat split.
Qed.

(** X18. The options that give a location or a prefix list
    ([WithCodeLocation], [WithIgnoredPrefix], [WithPathPrefix],
    [WithThisCodeLocation], [WithFunctionLocation],
    [WithDefaultFunctionLocation] and the cached forms) never change
    [SuppressCLM] or [DemandCLM]. A sequence made of such options is
    therefore applied to its end, and resolves to settings that neither
    suppress nor demand reporting. *)
Theorem location_options_leave_flags :
  (forall loc, leavesFlags (WithCodeLocation loc))
  /\ (forall prefix, leavesFlags (WithIgnoredPrefix prefix))
  /\ (forall prefix, leavesFlags (WithPathPrefix prefix))
  /\ (forall callers, leavesFlags (WithThisCodeLocation callers))
  /\ (forall function, leavesFlags (WithFunctionLocation function))
  /\ (forall function, leavesFlags (WithDefaultFunctionLocation function))
  /\ (forall callers c h, leavesFlags (snd (CachedOptions.WithThisCodeLocation callers c h)))
  /\ (forall c function, leavesFlags (CachedOptions.WithFunctionLocation c function))
  /\ (forall c function, leavesFlags (CachedOptions.WithDefaultFunctionLocation c function))
  /\ (forall options h,
        Forall leavesFlags options ->
        resolveCLMTraceOptions options h = Spec.foldOptions options h zeroTraceOptSet
        /\ SuppressCLM (snd (resolveCLMTraceOptions options h)) = false
        /\ DemandCLM (snd (resolveCLMTraceOptions options h)) = false).
Proof.
  assert (Hplain : forall function, leavesFlags (WithFunctionLocation function)).
  { intros function h o. unfold WithFunctionLocation.
    destruct (FunctionLocation function) as [loc [e|]]; now split. }
  assert (Hcached : forall c function,
             leavesFlags (CachedOptions.WithFunctionLocation c function)).
  { intros c function h o. unfold CachedOptions.WithFunctionLocation.
    destruct (Cached.FunctionLocation c function h) as [h' [loc [e|]]]; now split. }
  assert (Hdefault : forall function, leavesFlags (WithDefaultFunctionLocation function)).
  { intros function h o. unfold WithDefaultFunctionLocation.
    destruct (LocationOverride o); [now split | apply Hplain]. }
  assert (Hthis : forall callers c h,
             leavesFlags (snd (CachedOptions.WithThisCodeLocation callers c h))).
  { intros callers c h h0 o. unfold CachedOptions.WithThisCodeLocation.
    destruct (Cached.ThisCodeLocation _ c [1] h). now split. }
  assert (Hcacheddefault : forall c function,
             leavesFlags (CachedOptions.WithDefaultFunctionLocation c function)).
  { intros c function h o. unfold CachedOptions.WithDefaultFunctionLocation.
    destruct (LocationOverride o); [now split|].
    destruct (Cached.FunctionLocation c function h) as [h' [loc [e|]]]; now split. }
  split; [intros loc h o; now split|].
  split; [intros prefix h o; now split|].
  split; [intros prefix h o; now split|].
  split; [intros callers h o; now split|].
  split; [exact Hplain|]. split; [exact Hdefault|]. split; [exact Hthis|].
  split; [exact Hcached|]. split; [exact Hcacheddefault|].
  intros options h Hall. now apply applyOptions_leavesFlags.
Qed.

End FlagFacts.

(** X18 at a sequence of four such options. *)
Lemma location_options_leave_flags_witness :
  SuppressCLM (snd (resolveCLMTraceOptions MoreExamples.locationsAndPrefixes ∅)) = false
  /\ DemandCLM (snd (resolveCLMTraceOptions MoreExamples.locationsAndPrefixes ∅)) = false.
Proof.
  destruct (@location_options_leave_flags Example.goRuntime)
    as (_ & Hign & Hpath & _ & Hfun & _ & _ & _ & Hdef & Hall).
  destruct (Hall MoreExamples.locationsAndPrefixes ∅) as (_ & Hsup & Hdem).
  - unfold MoreExamples.locationsAndPrefixes.
    constructor; [apply Hfun|]. constructor; [apply Hign|].
    constructor; [apply Hdef|]. constructor; [apply Hpath|]. constructor.
  - split; [exact Hsup | exact Hdem].
Defined.
